(** * Verification of the identity and access-control core of commcomms

    Shallow embedding of the Go sources under [backend/internal/auth] and
    [backend/internal/identity]: the token-bucket rate limiter, the JWT
    validation, the invite validator, the identity service (register,
    login, refresh) and the reputation ledger. *)

From Stdlib Require Import ZArith String Ascii List Bool Lia.
Import ListNotations.

Open Scope Z_scope.

(** ** Go's [int] and [time.Duration]: 64-bit two's complement integers *)
Module GoInt.

Definition int_min : Z := - 2 ^ 63.
Definition int_max : Z := 2 ^ 63 - 1.

(** Result of a 64-bit arithmetic operation: Go wraps around silently. *)
Definition wrap64 (z : Z) : Z := (z + 2 ^ 63) mod 2 ^ 64 - 2 ^ 63.

(** Integer division of two [int64]s: truncates toward zero; a zero
    divisor is a run-time panic ([None]); [int_min / -1] wraps. *)
Definition div64 (a b : Z) : option Z :=
  if b =? 0 then None else Some (wrap64 (Z.quot a b)).

(** [time.Time.Sub]: the difference, saturated to the [Duration] range. *)
Definition sub_sat (t u : Z) : Z :=
  Z.max int_min (Z.min int_max (t - u)).

End GoInt.

Import GoInt.

(** ** [auth/ratelimit.go] *)
Module RateLimit.

(** [time.Duration] constants, in nanoseconds. *)
Definition Minute : Z := 60 * 10 ^ 9.
Definition Hour : Z := 60 * Minute.

Record tokenBucket := mkBucket {
  tokens : Z;
  lastCheck : Z
}.

(** [map[string]*tokenBucket]: a missing key reads as [None]. *)
Definition bucket_map := string -> option tokenBucket.

Definition map_set (m : bucket_map) (k : string) (v : tokenBucket) : bucket_map :=
  fun k' => if String.eqb k' k then Some v else m k'.

Record RateLimiter := mkLimiter {
  buckets : bucket_map;
  rate : Z;       (* tokens per interval *)
  interval : Z;   (* refill interval *)
  capacity : Z    (* max tokens *)
}.

Definition with_buckets (rl : RateLimiter) (m : bucket_map) : RateLimiter :=
  mkLimiter m (rate rl) (interval rl) (capacity rl).

(** [NewRateLimiter]; the cleanup goroutine it starts is [cleanup_tick]. *)
Definition NewRateLimiter (rate interval : Z) : RateLimiter :=
  {| buckets := fun _ => None;
     rate := rate;
     interval := interval;
     capacity := wrap64 (rate * 2) |}.

(** One tick of [cleanup]: every bucket whose [now.Sub(lastCheck)] exceeds
    [10*time.Minute] is deleted. *)
Definition cleanup_tick (rl : RateLimiter) (now : Z) : RateLimiter :=
  with_buckets rl (fun k =>
    match buckets rl k with
    | Some b => if sub_sat now (lastCheck b) >? 10 * Minute then None else Some b
    | None => None
    end).

(** [Allow], with [time.Now()] passed in as [now]; [None] is the run-time
    panic of an integer division by a zero interval. *)
Definition Allow (rl : RateLimiter) (key : string) (now : Z)
  : option (bool * RateLimiter) :=
  match buckets rl key with
  | None =>
      Some (true, with_buckets rl
                    (map_set (buckets rl) key (mkBucket (wrap64 (capacity rl - 1)) now)))
  | Some b =>
      let elapsed := sub_sat now (lastCheck b) in
      match div64 elapsed (interval rl) with
      | None => None
      | Some q =>
          let tokensToAdd := wrap64 (q * rate rl) in
          let t1 := wrap64 (tokens b + tokensToAdd) in
          let t2 := if t1 >? capacity rl then capacity rl else t1 in
          if t2 >? 0
          then Some (true, with_buckets rl (map_set (buckets rl) key (mkBucket (t2 - 1) now)))
          else Some (false, with_buckets rl (map_set (buckets rl) key (mkBucket t2 now)))
      end
  end.

(** [n] consecutive [Allow(key)] calls at the same instant. *)
Fixpoint allow_n (rl : RateLimiter) (key : string) (now : Z) (n : nat)
  : option (list bool * RateLimiter) :=
  match n with
  | O => Some ([], rl)
  | S n' =>
      match Allow rl key now with
      | None => None
      | Some (b, rl1) =>
          match allow_n rl1 key now n' with
          | None => None
          | Some (bs, rl2) => Some (b :: bs, rl2)
          end
      end
  end.

End RateLimit.

(** ** [auth/jwt.go]: [ValidateToken] *)
Module JWT.
Local Open Scope string_scope.

(** Decoded JSON values of a token's payload. *)
Inductive jvalue :=
| JString (s : string)
| JNumber (n : Z)
| JBool (b : bool)
| JNull.

(** [jwt.MapClaims]: the payload object, keys assumed distinct. *)
Definition MapClaims := list (string * jvalue).

Fixpoint lookup (k : string) (m : MapClaims) : option jvalue :=
  match m with
  | [] => None
  | (k', v) :: m' => if String.eqb k k' then Some v else lookup k m'
  end.

(** [MapClaims.parseNumericDate] of golang-jwt v5, behind
    [GetExpirationTime] and [GetIssuedAt]: an absent key is [(nil, nil)],
    and so is the number 0 ([case float64: if exp == 0 { return nil, nil }]);
    any other number is a date, anything else [ErrInvalidType]. *)
Definition parseNumericDate (m : MapClaims) (k : string) : option (option Z) :=
  match lookup k m with
  | None => Some None
  | Some (JNumber n) => if Z.eqb n 0 then Some None else Some (Some n)
  | Some _ => None
  end.

(** What [jwt.Parse] (an external library) hands back: either an error,
    recording whether [errors.Is(err, jwt.ErrTokenExpired)] holds (the
    signature was checked and only the time claims failed), or a token with
    its [Valid] flag and its claims ([None] when they are not a
    [jwt.MapClaims]). *)
Inductive parse_result :=
| ParseError (expired : bool)
| Parsed (valid : bool) (claims : option MapClaims).

Record Claims := mkClaims {
  UserID : string;
  ExpiresAt : Z;
  IssuedAt : Z;
  TokenID : string
}.

(** Outcome of [ValidateToken]: claims, an [errors.New] message, or a
    run-time panic (nil pointer dereference). *)
Inductive validate_result :=
| VOk (c : Claims)
| VErr (msg : string)
| VPanic.

Definition ValidateToken (jwt_Parse : string -> parse_result) (tokenString : string)
  : validate_result :=
  match jwt_Parse tokenString with
  | ParseError true => VErr "token expired"
  | ParseError false => VErr "invalid token"
  | Parsed false _ => VErr "invalid token"
  | Parsed true None => VErr "invalid token claims"
  | Parsed true (Some claims) =>
      match lookup "user_id" claims with
      | Some (JString userID) =>
          if String.eqb userID "" then VErr "invalid user_id claim" else
          match parseNumericDate claims "exp" with
          | None => VErr "invalid expiration claim"
          | Some exp =>
              match parseNumericDate claims "iat" with
              | None => VErr "invalid issued at claim"
              | Some iat =>
                  let tokenID := match lookup "jti" claims with
                                 | Some (JString j) => j
                                 | _ => ""
                                 end in
                  match exp, iat with
                  | Some e, Some i => VOk (mkClaims userID e i tokenID)
                  | _, _ => VPanic
                  end
              end
          end
      | _ => VErr "invalid user_id claim"
      end
  end.

End JWT.

(** ** [identity]: sentinel errors and results *)
Module Errors.

(** The package's sentinel errors; [ErrExternal] is an error coming from a
    collaborator (a store that is unreachable, say), and [Wrapped ctx e] is
    [fmt.Errorf("ctx: %w", e)]. *)
Inductive error :=
| ErrUserNotFound | ErrEmailAlreadyRegistered
| ErrPasswordTooShort | ErrPasswordTooWeak
| ErrHandleInvalidChars | ErrHandleAlreadyTaken | ErrHandleTooLong | ErrHandleTooShort
| ErrInvalidEmailFormat
| ErrInviteNotFound | ErrInvalidInviteCode | ErrInviteExpired | ErrInviteExhausted
| ErrInvalidCredentials | ErrTokenRevoked | ErrTokenExpired | ErrTokenInvalid
| ErrInvalidEventType | ErrDuplicateEvent | ErrInvalidPointsValue | ErrSelfReputation
| ErrCommunityNotFound
| ErrExternal (msg : string)
| Wrapped (context : string) (inner : error).

(** A Go [(value, error)] pair. *)
Inductive result (A : Type) :=
| Ok (a : A)
| Err (e : error).
Arguments Ok {A} a.
Arguments Err {A} e.

End Errors.

Import Errors.

(** ** [identity/service.go] and [identity/invite.go] *)
Module Identity.
Local Open Scope string_scope.

Record User := mkUser {
  ID : string;
  Email : string;
  Handle : string;
  PasswordHash : string;
  Reputation : Z
}.

Record Invite := mkInvite {
  Code : string;
  MaxUses : Z;
  UsedCount : Z;
  ExpiresAt : Z;
  CommunityID : string;
  CreatorID : string
}.

Record AuthResponse := mkAuthResponse {
  AccessToken : string;
  RefreshToken : string
}.

Record Community := mkCommunity {
  CommunityIdent : string;
  Name : string
}.

(** The calls the service makes on its collaborators, in order. *)
Inductive call :=
| CFindByCode (code : string)
| CIncrementUsage (code : string)
| CFindByEmail (email : string)
| CFindByHandle (handle : string)
| CCreate (u : User)
| CHash (password : string)
| CCompare (hash password : string)
| CGenerateAccessToken (userID : string)
| CGenerateRefreshToken (userID : string)
| CValidateRefreshToken (token : string)
| CIsRevoked (token : string)
| CRevoke (token : string).

(** The [Service] struct: the interfaces it holds, over the state [St] of
    the stores behind them. *)
Record Service (St : Type) := mkService {
  inviteRepo_FindByCode : St -> string -> result Invite;
  inviteRepo_IncrementUsage : St -> string -> result St;
  userRepo_Create : St -> User -> result St;
  userRepo_FindByEmail : St -> string -> result User;
  userRepo_FindByHandle : St -> string -> result User;
  hasher_Hash : string -> result string;
  hasher_Compare : string -> string -> result unit;
  tokenGen_GenerateAccessToken : string -> result string;
  tokenGen_GenerateRefreshToken : string -> result string;
  tokenValidator_ValidateRefreshToken : string -> result string;
  refreshTokenRepo_IsRevoked : St -> string -> result bool;
  refreshTokenRepo_Revoke : St -> string -> result St
}.
Arguments mkService {St}.
Arguments inviteRepo_FindByCode {St}.
Arguments inviteRepo_IncrementUsage {St}.
Arguments userRepo_Create {St}.
Arguments userRepo_FindByEmail {St}.
Arguments userRepo_FindByHandle {St}.
Arguments hasher_Hash {St}.
Arguments hasher_Compare {St}.
Arguments tokenGen_GenerateAccessToken {St}.
Arguments tokenGen_GenerateRefreshToken {St}.
Arguments tokenValidator_ValidateRefreshToken {St}.
Arguments refreshTokenRepo_IsRevoked {St}.
Arguments refreshTokenRepo_Revoke {St}.

(** *** Character classes of the two regular expressions *)
Definition is_alpha (c : Ascii.ascii) : bool :=
  let n := Ascii.nat_of_ascii c in
  (Nat.leb 65 n && Nat.leb n 90) || (Nat.leb 97 n && Nat.leb n 122).
Definition is_digit (c : Ascii.ascii) : bool :=
  let n := Ascii.nat_of_ascii c in Nat.leb 48 n && Nat.leb n 57.
Definition is_alnum (c : Ascii.ascii) : bool := is_alpha c || is_digit c.
Definition in_chars (cs : string) (c : Ascii.ascii) : bool :=
  existsb (Ascii.eqb c) (list_ascii_of_string cs).

Fixpoint all_chars (p : Ascii.ascii -> bool) (s : string) : bool :=
  match s with
  | EmptyString => true
  | String c s' => p c && all_chars p s'
  end.

(** Split at the first occurrence of [c]. *)
Fixpoint split_first (c : Ascii.ascii) (s : string) : option (string * string) :=
  match s with
  | EmptyString => None
  | String x s' =>
      if Ascii.eqb x c then Some (EmptyString, s')
      else match split_first c s' with
           | Some (a, b) => Some (String x a, b)
           | None => None
           end
  end.

(** Split at the last occurrence of [c]. *)
Fixpoint split_last (c : Ascii.ascii) (s : string) : option (string * string) :=
  match s with
  | EmptyString => None
  | String x s' =>
      match split_last c s' with
      | Some (a, b) => Some (String x a, b)
      | None => if Ascii.eqb x c then Some (EmptyString, s') else None
      end
  end.

(** [handleRegex]: [^[a-zA-Z0-9_]+$]. *)
Definition handleRegex_match (s : string) : bool :=
  negb (String.eqb s "") && all_chars (fun c => is_alnum c || in_chars "_" c) s.

(** [emailRegex]: [^[a-zA-Z0-9._%+-]+@[a-zA-Z0-9.-]+\.[a-zA-Z]{2,}$].
    Neither class holds '@', so the split is at the only '@'; the
    top-level domain holds no '.', so it follows the last '.'. *)
Definition emailRegex_match (s : string) : bool :=
  match split_first "@"%char s with
  | None => false
  | Some (local, domain) =>
      negb (String.eqb local "")
      && all_chars (fun c => is_alnum c || in_chars "._%+-" c) local
      && match split_last "."%char domain with
         | None => false
         | Some (d, tld) =>
             negb (String.eqb d "")
             && all_chars (fun c => is_alnum c || in_chars ".-" c) d
             && Nat.leb 2 (String.length tld)
             && all_chars is_alpha tld
         end
  end.

Definition validateEmail (email : string) : option error :=
  if emailRegex_match email then None else Some ErrInvalidEmailFormat.

Definition validatePassword (password : string) : option error :=
  if Nat.ltb (String.length password) 8 then Some ErrPasswordTooShort else None.

Definition validateHandle (handle : string) : option error :=
  if Nat.ltb (String.length handle) 3 then Some ErrHandleTooShort
  else if Nat.ltb 20 (String.length handle) then Some ErrHandleTooLong
  else if negb (handleRegex_match handle) then Some ErrHandleInvalidChars
  else None.

(** *** The service's effects: store state, the log of collaborator calls,
    and Go's early [return nil, err] *)
Definition M (St A : Type) := St * list call -> result A * (St * list call).

Definition ret {St A} (a : A) : M St A := fun w => (Ok a, w).
Definition throw {St A} (e : error) : M St A := fun w => (Err e, w).
Definition bind {St A B} (m : M St A) (k : A -> M St B) : M St B :=
  fun w => let (r, w') := m w in
           match r with
           | Ok a => k a w'
           | Err e => (Err e, w')
           end.

Declare Scope go_scope.
Notation "x <- m ;; k" := (bind m (fun x => k))
  (at level 61, m at next level, right associativity) : go_scope.
Local Open Scope go_scope.

Section Service.
Context {St : Type} (svc : Service St).

(** A call that reads the stores; its [(value, err)] is handed back. *)
Definition read_call {A} (c : call) (f : St -> result A) : M St (result A) :=
  fun '(s, tr) => (Ok (f s), (s, (tr ++ [c])%list)).

(** A call that may update the stores. *)
Definition write_call (c : call) (f : St -> result St) : M St (result unit) :=
  fun '(s, tr) =>
    match f s with
    | Ok s' => (Ok (Ok tt), (s', (tr ++ [c])%list))
    | Err e => (Ok (Err e), (s, (tr ++ [c])%list))
    end.

Definition isHandleAvailable (handle : string) : M St (result bool) :=
  r <- read_call (CFindByHandle handle) (fun s => userRepo_FindByHandle svc s handle) ;;
  match r with
  | Err _ => ret (Ok true)   (* "Assume not found means available" *)
  | Ok _ => ret (Ok false)
  end.

(** [Register], with [time.Now()] as [now] and [uuid.New().String()] as
    [newID]. *)
Definition Register (now : Z) (newID : string)
    (email password handle inviteCode : string) : M St User :=
  found <- read_call (CFindByCode inviteCode)
             (fun s => inviteRepo_FindByCode svc s inviteCode) ;;
  match found with
  | Err _ => throw ErrInvalidInviteCode
  | Ok invite =>
  if now >? ExpiresAt invite then throw ErrInviteExpired else
  if (MaxUses invite >? 0) && (UsedCount invite >=? MaxUses invite)
  then throw ErrInviteExhausted else
  match validateEmail email with Some e => throw e | None =>
  match validatePassword password with Some e => throw e | None =>
  match validateHandle handle with Some e => throw e | None =>
  existingUser <- read_call (CFindByEmail email)
                    (fun s => userRepo_FindByEmail svc s email) ;;
  match existingUser with
  | Ok _ => throw ErrEmailAlreadyRegistered
  | Err _ =>
  available <- isHandleAvailable handle ;;
  match available with
  | Err e => throw (Wrapped "failed to check handle availability" e)
  | Ok false => throw ErrHandleAlreadyTaken
  | Ok true =>
  hashed <- read_call (CHash password) (fun _ => hasher_Hash svc password) ;;
  match hashed with
  | Err e => throw (Wrapped "failed to hash password" e)
  | Ok hashedPassword =>
  let user := mkUser newID email handle hashedPassword 0 in
  created <- write_call (CCreate user) (fun s => userRepo_Create svc s user) ;;
  match created with
  | Err e => throw (Wrapped "failed to create user" e)
  | Ok _ =>
  (* a failed usage increment is ignored *)
  _ <- write_call (CIncrementUsage inviteCode)
         (fun s => inviteRepo_IncrementUsage svc s inviteCode) ;;
  ret user
  end end end end end end end end.

Definition Login (email password : string) : M St AuthResponse :=
  found <- read_call (CFindByEmail email) (fun s => userRepo_FindByEmail svc s email) ;;
  match found with
  | Err _ => throw ErrInvalidCredentials
  | Ok user =>
  cmp <- read_call (CCompare (PasswordHash user) password)
           (fun _ => hasher_Compare svc (PasswordHash user) password) ;;
  match cmp with
  | Err _ => throw ErrInvalidCredentials
  | Ok _ =>
  access <- read_call (CGenerateAccessToken (ID user))
              (fun _ => tokenGen_GenerateAccessToken svc (ID user)) ;;
  match access with
  | Err e => throw (Wrapped "failed to generate access token" e)
  | Ok accessToken =>
  refresh <- read_call (CGenerateRefreshToken (ID user))
               (fun _ => tokenGen_GenerateRefreshToken svc (ID user)) ;;
  match refresh with
  | Err e => throw (Wrapped "failed to generate refresh token" e)
  | Ok refreshToken => ret (mkAuthResponse accessToken refreshToken)
  end end end end.

Definition RefreshTokens (refreshToken : string) : M St AuthResponse :=
  validated <- read_call (CValidateRefreshToken refreshToken)
                 (fun _ => tokenValidator_ValidateRefreshToken svc refreshToken) ;;
  match validated with
  | Err e => throw e
  | Ok userID =>
  revoked <- read_call (CIsRevoked refreshToken)
               (fun s => refreshTokenRepo_IsRevoked svc s refreshToken) ;;
  match revoked with
  | Err e => throw (Wrapped "failed to check token revocation" e)
  | Ok true => throw ErrTokenRevoked
  | Ok false =>
  revocation <- write_call (CRevoke refreshToken)
                  (fun s => refreshTokenRepo_Revoke svc s refreshToken) ;;
  match revocation with
  | Err e => throw (Wrapped "failed to revoke old token" e)
  | Ok _ =>
  access <- read_call (CGenerateAccessToken userID)
              (fun _ => tokenGen_GenerateAccessToken svc userID) ;;
  match access with
  | Err e => throw (Wrapped "failed to generate access token" e)
  | Ok accessToken =>
  refresh <- read_call (CGenerateRefreshToken userID)
               (fun _ => tokenGen_GenerateRefreshToken svc userID) ;;
  match refresh with
  | Err e => throw (Wrapped "failed to generate refresh token" e)
  | Ok newRefreshToken => ret (mkAuthResponse accessToken newRefreshToken)
  end end end end end.

End Service.

(** *** [InviteService.ValidateInvite]: the two versions in [invite.go] *)

(** Lines 64-76: the repository error is passed through, and the usage
    check has no [MaxUses > 0] guard. *)
Definition ValidateInvite_v1 (FindByCode : string -> result Invite)
    (FindByID : string -> result Community) (now : Z) (code : string)
  : result Community :=
  match FindByCode code with
  | Err e => Err e
  | Ok invite =>
      if now >? ExpiresAt invite then Err ErrInviteExpired
      else if UsedCount invite >=? MaxUses invite then Err ErrInviteExhausted
      else FindByID (CommunityID invite)
  end.

(** Lines 157-169: "MaxUses of 0 means unlimited uses". *)
Definition ValidateInvite (FindByCode : string -> result Invite)
    (FindByID : string -> result Community) (now : Z) (code : string)
  : result Community :=
  match FindByCode code with
  | Err _ => Err ErrInviteNotFound
  | Ok invite =>
      if now >? ExpiresAt invite then Err ErrInviteExpired
      else if (MaxUses invite >? 0) && (UsedCount invite >=? MaxUses invite)
      then Err ErrInviteExhausted
      else FindByID (CommunityID invite)
  end.

End Identity.

(** ** [identity/reputation.go]: the two versions in the tree *)
Module Reputation.
Local Open Scope string_scope.

Record ReputationEvent := mkEvent {
  EvID : string;
  EvUserID : string;
  EvEventType : string;
  EvPoints : Z;
  EvRefID : string;
  EvCreatedAt : Z
}.

Record ReputationRepository (St : Type) := mkReputationRepository {
  repo_GetReputation : St -> string -> result Z;
  repo_RecordEvent : St -> ReputationEvent -> result St;
  repo_HasRecordedEvent : St -> string -> string -> string -> result bool
}.
Arguments mkReputationRepository {St}.
Arguments repo_GetReputation {St}.
Arguments repo_RecordEvent {St}.
Arguments repo_HasRecordedEvent {St}.

Section Ledger.
Context {St : Type} (repo : ReputationRepository St).

Definition GetReputation (s : St) (userID : string) : result Z :=
  repo_GetReputation repo s userID.

(** [part_010]: the event is recorded as given, with no check at all;
    [time.Now()] is [now]. The [error] result is [None] for [nil]. *)
Definition RecordReputationEvent_v1 (now : Z)
    (userID eventType : string) (points : Z) (refID : string) (s : St)
  : option error * St :=
  let event := mkEvent "" userID eventType points refID now in
  match repo_RecordEvent repo s event with
  | Ok s' => (None, s')
  | Err e => (Some e, s)
  end.

(** [part_009]. [ValidateReputationEvent] and [EventModeratorAction] are
    declared elsewhere in the package; they are parameters here. *)
Definition RecordReputationEvent
    (ValidateReputationEvent : string -> Z -> option error)
    (EventModeratorAction : string) (now : Z)
    (callerID targetUserID eventType : string) (points : Z) (refID : string)
    (s : St) : option error * St :=
  if String.eqb callerID targetUserID && negb (String.eqb eventType EventModeratorAction)
  then (Some ErrSelfReputation, s) else
  match ValidateReputationEvent eventType points with
  | Some e => (Some e, s)
  | None =>
  let record :=
    let event := mkEvent "" targetUserID eventType points refID now in
    match repo_RecordEvent repo s event with
    | Ok s' => (None, s')
    | Err e => (Some (Wrapped "failed to record reputation event" e), s)
    end in
  if negb (String.eqb refID "") then
    match repo_HasRecordedEvent repo s targetUserID eventType refID with
    | Err e => (Some (Wrapped "failed to check for duplicate event" e), s)
    | Ok true => (Some ErrDuplicateEvent, s)
    | Ok false => record
    end
  else record
  end.

End Ledger.
End Reputation.

(** ** The in-memory repositories of [test/acceptance/setup_test.go] *)
Module InMemory.
Import Identity Reputation.
Local Open Scope string_scope.

Record state := mkState {
  users : list User;          (* map[string]*User, keyed by ID *)
  invites : list Invite;      (* map[string]*Invite, keyed by code *)
  revoked : list string       (* map[string]bool of revoked tokens *)
}.

Definition user_Create (s : state) (u : User) : result state :=
  Ok (mkState (u :: filter (fun x => negb (String.eqb (ID x) (ID u))) (users s))
              (invites s) (revoked s)).

Definition user_FindByEmail (s : state) (email : string) : result User :=
  match find (fun u => String.eqb (Email u) email) (users s) with
  | Some u => Ok u
  | None => Err ErrUserNotFound
  end.

Definition user_FindByHandle (s : state) (handle : string) : result User :=
  match find (fun u => String.eqb (Handle u) handle) (users s) with
  | Some u => Ok u
  | None => Err ErrUserNotFound
  end.

Definition invite_FindByCode (s : state) (code : string) : result Invite :=
  match find (fun i => String.eqb (Code i) code) (invites s) with
  | Some i => Ok i
  | None => Err ErrInviteNotFound
  end.

Definition invite_IncrementUsage (s : state) (code : string) : result state :=
  match find (fun i => String.eqb (Code i) code) (invites s) with
  | None => Err ErrInviteNotFound
  | Some _ =>
      Ok (mkState (users s)
            (map (fun i => if String.eqb (Code i) code
                           then mkInvite (Code i) (MaxUses i) (wrap64 (UsedCount i + 1))
                                         (ExpiresAt i) (CommunityID i) (CreatorID i)
                           else i) (invites s))
            (revoked s))
  end.

Definition token_IsRevoked (s : state) (token : string) : result bool :=
  Ok (existsb (String.eqb token) (revoked s)).

Definition token_Revoke (s : state) (token : string) : result state :=
  Ok (mkState (users s) (invites s) (token :: revoked s)).

(** [BcryptPasswordHasher] of the acceptance tests. *)
Definition hasher_Hash_impl (password : string) : result string :=
  Ok ("hashed_" ++ password).
Definition hasher_Compare_impl (hashedPassword password : string) : result unit :=
  if String.eqb hashedPassword ("hashed_" ++ password) then Ok tt
  else Err ErrInvalidCredentials.

(** A deterministic stand-in for the signed tokens, for runs on concrete
    stores where the tokens play no part or only their user ID matters:
    "access.<id>" and "refresh.<id>"; a refresh token validates to the id
    it carries and never expires. [setup()] wires the [JWTService] and the
    [JWTTokenValidator] instead, which [service_with] below leaves as
    parameters. *)
Definition gen_access (userID : string) : result string := Ok ("access." ++ userID).
Definition gen_refresh (userID : string) : result string := Ok ("refresh." ++ userID).
Definition validate_refresh (token : string) : result string :=
  match split_first "."%char token with
  | Some (kind, userID) =>
      if String.eqb kind "refresh" && negb (String.eqb userID "") then Ok userID
      else Err ErrTokenInvalid
  | None => Err ErrTokenInvalid
  end.

Definition service : Service state :=
  mkService invite_FindByCode invite_IncrementUsage user_Create
    user_FindByEmail user_FindByHandle hasher_Hash_impl hasher_Compare_impl
    gen_access gen_refresh validate_refresh token_IsRevoked token_Revoke.

(** The in-memory stores of [setup()] with the token collaborators given:
    there, [tokenGen] is the [JWTService] and [tokenValidator] the
    [JWTTokenValidator] around it, whose results depend on the signing key
    and the clock. *)
Definition service_with (gen_access gen_refresh validate_refresh : string -> result string)
  : Service state :=
  mkService invite_FindByCode invite_IncrementUsage user_Create
    user_FindByEmail user_FindByHandle hasher_Hash_impl hasher_Compare_impl
    gen_access gen_refresh validate_refresh token_IsRevoked token_Revoke.

(** The same service over a user store whose reads fail (the store is
    unreachable for reads) while its writes go through. *)
Definition service_user_reads_failing : Service state :=
  mkService invite_FindByCode invite_IncrementUsage user_Create
    (fun _ _ => Err (ErrExternal "connection refused"))
    (fun _ _ => Err (ErrExternal "connection refused"))
    hasher_Hash_impl hasher_Compare_impl
    gen_access gen_refresh validate_refresh token_IsRevoked token_Revoke.

(** [InMemoryReputationRepository]. *)
Record rep_state := mkRepState {
  events : list ReputationEvent;
  reputation : string -> Z        (* map[string]int, zero when absent *)
}.

Definition rep_empty : rep_state := mkRepState [] (fun _ => 0).

Definition rep_RecordEvent (s : rep_state) (event : ReputationEvent) : result rep_state :=
  Ok (mkRepState (events s ++ [event])%list
        (fun u => if String.eqb u (EvUserID event)
                  then wrap64 (reputation s u + EvPoints event)
                  else reputation s u)).

Definition rep_HasRecordedEvent (s : rep_state) (userID eventType refID : string)
  : result bool :=
  Ok (existsb (fun e => String.eqb (EvUserID e) userID
                        && String.eqb (EvEventType e) eventType
                        && String.eqb (EvRefID e) refID) (events s)).

Definition rep_repo : ReputationRepository rep_state :=
  mkReputationRepository (fun s u => Ok (reputation s u)) rep_RecordEvent
    rep_HasRecordedEvent.

End InMemory.

(** ** Pieces of Go's standard library the HTTP layer relies on:
    [strings], [net/http] headers, [http.Error], [context] values *)
Module GoStd.
Local Open Scope string_scope.

Definition byte_is (c : ascii) (n : nat) : bool := Nat.eqb (nat_of_ascii c) n.

(** [asciiSpace] of [strings.TrimSpace]: '\t', '\n', '\v', '\f', '\r', ' '. *)
Definition is_ascii_space (c : ascii) : bool :=
  let n := nat_of_ascii c in (Nat.leb 9 n && Nat.leb n 13) || Nat.eqb n 32.

(** The UTF-8 encodings of the other runes of [unicode.IsSpace]: U+0085
    and U+00A0 (two bytes); U+1680, U+2000..U+200A, U+2028, U+2029, U+202F,
    U+205F and U+3000 (three bytes). *)
Definition is_space2 (c1 c2 : ascii) : bool :=
  byte_is c1 194 && (byte_is c2 133 || byte_is c2 160).

Definition is_space3 (c1 c2 c3 : ascii) : bool :=
  (byte_is c1 225 && byte_is c2 154 && byte_is c3 128)
  || (byte_is c1 226 && byte_is c2 128
      && ((Nat.leb 128 (nat_of_ascii c3) && Nat.leb (nat_of_ascii c3) 138)
          || byte_is c3 168 || byte_is c3 169 || byte_is c3 175))
  || (byte_is c1 226 && byte_is c2 129 && byte_is c3 159)
  || (byte_is c1 227 && byte_is c2 128 && byte_is c3 128).

(** [strings.TrimLeftFunc(s, unicode.IsSpace)]: leading runes are decoded
    with [utf8.DecodeRuneInString]; a byte that starts no white-space rune
    ends the trimming. *)
Fixpoint TrimLeftSpace (s : string) : string :=
  match s with
  | EmptyString => EmptyString
  | String c1 r1 =>
      if is_ascii_space c1 then TrimLeftSpace r1 else
      match r1 with
      | EmptyString => s
      | String c2 r2 =>
          if is_space2 c1 c2 then TrimLeftSpace r2 else
          match r2 with
          | EmptyString => s
          | String c3 r3 => if is_space3 c1 c2 c3 then TrimLeftSpace r3 else s
          end
      end
  end.

(** [strings.TrimRightFunc(s, unicode.IsSpace)] on the bytes of [s] in
    reverse order: [utf8.DecodeLastRuneInString] reads the last rune. *)
Fixpoint TrimRightSpace_rev (l : list ascii) : list ascii :=
  match l with
  | [] => []
  | c1 :: r1 =>
      if is_ascii_space c1 then TrimRightSpace_rev r1 else
      match r1 with
      | [] => l
      | c2 :: r2 =>
          if is_space2 c2 c1 then TrimRightSpace_rev r2 else
          match r2 with
          | [] => l
          | c3 :: r3 => if is_space3 c3 c2 c1 then TrimRightSpace_rev r3 else l
          end
      end
  end.

(** [strings.TrimSpace]: its ASCII fast path and its fallback to
    [TrimFunc(s, unicode.IsSpace)] both trim the white-space runes on the
    left, then on the right. *)
Definition TrimSpace (s : string) : string :=
  string_of_list_ascii
    (rev (TrimRightSpace_rev (rev (list_ascii_of_string (TrimLeftSpace s))))).

Fixpoint strip_prefix (prefix s : string) : option string :=
  match prefix, s with
  | EmptyString, _ => Some s
  | String a p', String b s' => if Ascii.eqb a b then strip_prefix p' s' else None
  | String _ _, EmptyString => None
  end.

(** [strings.HasPrefix] and [strings.TrimPrefix]. *)
Definition HasPrefix (s prefix : string) : bool :=
  match strip_prefix prefix s with Some _ => true | None => false end.
Definition TrimPrefix (s prefix : string) : string :=
  match strip_prefix prefix s with Some r => r | None => s end.

(** A request's [http.Header], a [map[string][]string] keyed by canonical
    names; [Header.Get] gives the first value, or "" when there is none. *)
Definition Header := string -> list string.
Definition Header_Get (h : Header) (key : string) : string :=
  match h key with v :: _ => v | [] => "" end.

(** The header map of a [ResponseWriter] when the status is written;
    [Header().Set] replaces a key's value. *)
Definition RespHeader := list (string * string).
Definition hdel (h : RespHeader) (k : string) : RespHeader :=
  filter (fun kv => negb (String.eqb (fst kv) k)) h.
Definition hset (h : RespHeader) (k v : string) : RespHeader := (k, v) :: hdel h k.
Definition hget (h : RespHeader) (k : string) : option string :=
  match find (fun kv => String.eqb (fst kv) k) h with
  | Some (_, v) => Some v
  | None => None
  end.

(** [context.Context] values. A Go key is typed, so a key is the name of its
    type together with its value. *)
Record ctxKey := mkCtxKey { key_type : string; key_name : string }.
Inductive ctxVal := CtxString (s : string) | CtxOther.
Definition Context := list (ctxKey * ctxVal).

Definition ctxKey_eqb (a b : ctxKey) : bool :=
  String.eqb (key_type a) (key_type b) && String.eqb (key_name a) (key_name b).

(** [context.WithValue]: the new pair shadows the older ones. *)
Definition WithValue (ctx : Context) (k : ctxKey) (v : ctxVal) : Context := (k, v) :: ctx.

Fixpoint Value (ctx : Context) (k : ctxKey) : option ctxVal :=
  match ctx with
  | [] => None
  | (k', v) :: ctx' => if ctxKey_eqb k' k then Some v else Value ctx' k
  end.

(** [v, ok := ctx.Value(k).(string)]. *)
Definition Value_string (ctx : Context) (k : ctxKey) : option string :=
  match Value ctx k with Some (CtxString s) => Some s | _ => None end.

Record Request := mkRequest {
  ReqHeader : Header;
  RemoteAddr : string;
  ReqCtx : Context;
  PathCommunityID : string;   (* [req.PathValue("communityID")] *)
  HasBody : bool;             (* [r.Body != nil] *)
  ContentLength : Z
}.

(** [r.WithContext(ctx)]. *)
Definition WithContext (r : Request) (ctx : Context) : Request :=
  mkRequest (ReqHeader r) (RemoteAddr r) ctx (PathCommunityID r) (HasBody r)
    (ContentLength r).

(** JSON documents written by [json.NewEncoder(w).Encode]; [JTime t] is the
    RFC 3339 rendering of the instant [t]. *)
#[warnings="-register-all"]
Inductive json :=
| JStr (s : string)
| JInt (n : Z)
| JTime (t : Z)
| JObj (fields : list (string * json)).

Inductive body :=
| BodyEmpty
| BodyText (s : string)
| BodyJSON (v : json).

Record Response := mkResponse {
  StatusCode : Z;
  Headers : RespHeader;
  RespBody : body
}.

Definition dq : string := String (ascii_of_nat 34) EmptyString.
Definition newline : string := String (ascii_of_nat 10) EmptyString.

(** [http.Error(w, error, code)] of Go 1.22: the content type is reset to
    plain text whatever was set before. *)
Definition http_Error (w : RespHeader) (error : string) (code : Z) : Response :=
  mkResponse code
    (hset (hset (hdel w "Content-Length") "Content-Type" "text/plain; charset=utf-8")
          "X-Content-Type-Options" "nosniff")
    (BodyText (error ++ newline)).

(** [w.WriteHeader(code)] with no body. *)
Definition WriteHeaderOnly (w : RespHeader) (code : Z) : Response :=
  mkResponse code w BodyEmpty.

(** An [http.HandlerFunc] over the state [St] of the stores behind it; [None]
    is a panic in the handler, which aborts the request. *)
Definition Handler (St : Type) := RespHeader -> Request -> St -> option (Response * St).

End GoStd.

(** ** [auth/ratelimit.go]: [RateLimitMiddleware] and [GetClientIP] *)
Module RateLimitHTTP.
Import RateLimit GoStd.
Local Open Scope string_scope.

Definition RateLimitMiddleware (limiter : RateLimiter) (keyFunc : Request -> string)
    (next : RespHeader -> Request -> Response) (w : RespHeader) (r : Request) (now : Z)
  : option (Response * RateLimiter) :=
  let key := keyFunc r in
  match Allow limiter key now with
  | None => None
  | Some (false, limiter') =>
      Some (http_Error (hset w "Retry-After" "60") "Rate limit exceeded" 429, limiter')
  | Some (true, limiter') => Some (next w r, limiter')
  end.

(** [strings.Index(xff, ",")] and [xff[:idx]] are the split at the first
    comma. *)
Definition GetClientIP (r : Request) : string :=
  let xff := Header_Get (ReqHeader r) "X-Forwarded-For" in
  if negb (String.eqb xff "") then
    match Identity.split_first ","%char xff with
    | Some (before, _) => TrimSpace before
    | None => TrimSpace xff
    end
  else
    let xri := Header_Get (ReqHeader r) "X-Real-Ip" in
    if negb (String.eqb xri "") then TrimSpace xri else RemoteAddr r.

(** The package's shared limiters. *)
Definition LoginRateLimiter : RateLimiter := NewRateLimiter 10 (15 * Minute).
Definition RegisterRateLimiter : RateLimiter := NewRateLimiter 5 Hour.
Definition GeneralRateLimiter : RateLimiter := NewRateLimiter 100 Minute.

End RateLimitHTTP.

(** ** [auth/jwt.go]: token generation *)
Module TokenGen.
Import JWT.
Local Open Scope string_scope.

(** [time.Time.Unix()] of an instant in nanoseconds. *)
Definition Unix (t : Z) : Z := t / 10 ^ 9.

(** The [jwt.MapClaims] that [generateTokenWithExpiry] signs, with
    [time.Now()] as [now] and [uuid.New().String()] as [tokenID]. *)
Definition tokenClaims (issuer userID : string) (duration now : Z) (tokenID : string)
  : MapClaims :=
  let expiresAt := now + duration in
  [("user_id", JString userID);
   ("exp", JNumber (Unix expiresAt));
   ("iat", JNumber (Unix now));
   ("nbf", JNumber (Unix now));
   ("iss", JString issuer);
   ("aud", JString "commcomms-api");
   ("jti", JString tokenID)].

(** [token.SignedString(s.secret)] is the library's [SignedString]. *)
Definition generateTokenWithExpiry (SignedString : MapClaims -> result string)
    (issuer userID : string) (duration now : Z) (tokenID : string) : result string :=
  SignedString (tokenClaims issuer userID duration now tokenID).

Definition GenerateAccessToken SignedString issuer userID now tokenID :=
  generateTokenWithExpiry SignedString issuer userID (15 * RateLimit.Minute) now tokenID.

Definition GenerateRefreshToken SignedString issuer userID now tokenID :=
  generateTokenWithExpiry SignedString issuer userID (7 * 24 * RateLimit.Hour) now tokenID.

(** [NewJWTService] sets the issuer. *)
Definition issuer : string := "commcomms".

End TokenGen.

(** ** The context keys of [auth] ([part_006]) and [handlers] *)
Module CtxKeys.
Import GoStd.
Local Open Scope string_scope.

(** [userContextKey contextKey = "user_id"], exported as [UserIDKey]. *)
Definition userContextKey : ctxKey := mkCtxKey "auth.contextKey" "user_id".
Definition UserIDKey : ctxKey := userContextKey.
(** [handlers.CommunityIDKey contextKey = "community_id"]. *)
Definition CommunityIDKey : ctxKey := mkCtxKey "handlers.contextKey" "community_id".
(** [api.RequestIDKey contextKey = "request_id"]. *)
Definition RequestIDKey : ctxKey := mkCtxKey "api.contextKey" "request_id".

End CtxKeys.

(** ** [part_006]: [auth.AuthMiddleware] and [auth.GetUserFromContext] *)
Module AuthMW.
Import GoStd CtxKeys JWT.
Local Open Scope string_scope.

Definition AuthMiddleware {St} (jwt_Parse : string -> parse_result) (next : Handler St)
  : Handler St :=
  fun w r s =>
    let authHeader := Header_Get (ReqHeader r) "Authorization" in
    if String.eqb authHeader "" || negb (HasPrefix authHeader "Bearer ") then
      Some (WriteHeaderOnly w 401, s)
    else
      let token := TrimPrefix authHeader "Bearer " in
      match ValidateToken jwt_Parse token with
      | VErr _ => Some (WriteHeaderOnly w 401, s)
      | VPanic => None
      | VOk claims =>
          next w (WithContext r (WithValue (ReqCtx r) userContextKey
                                   (CtxString (UserID claims)))) s
      end.

(** [GetUserFromContext]: [None] is the error "user not found in context". *)
Definition GetUserFromContext (ctx : Context) : option string :=
  Value_string ctx userContextKey.

End AuthMW.

(** ** [identity/invite.go] (lines 125-174): invite creation and use *)
Module InviteCreate.
Import Identity.
Local Open Scope string_scope.

Record InviteOptions := mkInviteOptions {
  opt_ExpiresAt : Z;
  opt_MaxUses : Z
}.

(** The zero [time.Time] (January 1, year 1, UTC) in nanoseconds since the
    Unix epoch. *)
Definition zeroTime : Z := -62135596800 * 10 ^ 9.
Definition IsZero (t : Z) : bool := Z.eqb t zeroTime.

Definition chars : string :=
  "abcdefghijklmnopqrstuvwxyzABCDEFGHIJKLMNOPQRSTUVWXYZ0123456789".

(** [chars[b % 62]] for a byte [b]. *)
Definition code_char (b : ascii) : ascii :=
  nth (Nat.modulo (nat_of_ascii b) 62) (list_ascii_of_string chars) "a"%char.

(** [generateInviteCode]: [rand.Read] fills the 32-byte slice [b] from the
    random source ([b[i]] is [rnd i]) or fails. *)
Definition generateInviteCode (rand_Read : result (nat -> ascii)) : result string :=
  match rand_Read with
  | Err e => Err (Wrapped "failed to generate random bytes" e)
  | Ok rnd => Ok (string_of_list_ascii (map (fun i => code_char (rnd i)) (seq 0 32)))
  end.

Definition CreateInvite (now : Z) (rand_Read : result (nat -> ascii))
    (communityID creatorID : string) (opts : InviteOptions) : result Invite :=
  let expiresAt := if IsZero (opt_ExpiresAt opts)
                   then now + 7 * 24 * RateLimit.Hour else opt_ExpiresAt opts in
  match generateInviteCode rand_Read with
  | Err e => Err (Wrapped "failed to generate invite code" e)
  | Ok code => Ok (mkInvite code (opt_MaxUses opts) 0 expiresAt communityID creatorID)
  end.

(** [UseInvite]. *)
Definition UseInvite {S} (IncrementUsage : S -> string -> result S) (s : S) (code : string)
  : result S :=
  IncrementUsage s code.

End InviteCreate.

(** ** [api/handlers/invite.go] *)
Module InviteHandlerM.
Import GoStd CtxKeys AuthMW Identity InviteCreate.
Local Open Scope string_scope.

Record CreateInviteRequest := mkCreateInviteRequest {
  ExpiresInDays : Z;
  ReqMaxUses : Z
}.

(** [writeJSONResponse] and [writeErrorResponse] of package [handlers]. *)
Definition writeJSONResponse (w : RespHeader) (statusCode : Z) (data : json) : Response :=
  mkResponse statusCode (hset w "Content-Type" "application/json") (BodyJSON data).
Definition writeErrorResponse (w : RespHeader) (statusCode : Z) (message : string)
  : Response :=
  writeJSONResponse w statusCode (JObj [("error", JStr message)]).

(** [InviteHandler.CreateInvite], with [time.Now()] as [now]; [decode] is the
    outcome of decoding the body ([None] for a decoding error), read only
    when there is a body with a positive length. *)
Definition CreateInviteHandler {St}
    (inviteService_CreateInvite : string -> string -> InviteOptions -> result Invite)
    (baseURL : string) (now : Z) (decode : option CreateInviteRequest) : Handler St :=
  fun w r s =>
  match GetUserFromContext (ReqCtx r) with
  | None => Some (writeErrorResponse w 401 "Unauthorized", s)
  | Some userID =>
  match Value_string (ReqCtx r) CommunityIDKey with
  | None => Some (writeErrorResponse w 400 "Community ID is required", s)
  | Some communityID =>
  if String.eqb communityID "" then Some (writeErrorResponse w 400 "Community ID is required", s) else
  let decoded := if HasBody r && (ContentLength r >? 0) then decode
                 else Some (mkCreateInviteRequest 0 0) in
  match decoded with
  | None => Some (writeErrorResponse w 400 "Invalid request body", s)
  | Some req =>
  let expiresInDays := if Z.leb (ExpiresInDays req) 0 then 7 else ExpiresInDays req in
  (* time.Duration(expiresInDays) * 24 * time.Hour, in int64 *)
  let opts := mkInviteOptions
                (now + GoInt.wrap64 (GoInt.wrap64 (expiresInDays * 24) * RateLimit.Hour))
                (ReqMaxUses req) in
  match inviteService_CreateInvite communityID userID opts with
  | Err _ => Some (writeErrorResponse w 500 "Failed to create invite", s)
  | Ok invite =>
      Some (writeJSONResponse w 201
              (JObj [("code", JStr (Code invite));
                     ("url", JStr (baseURL ++ "/invite/" ++ Code invite));
                     ("expiresAt", JTime (ExpiresAt invite))]), s)
  end end end end.

End InviteHandlerM.

(** ** [api/router.go]: the route wrappers *)
Module Router.
Import GoStd CtxKeys JWT RateLimit RateLimitHTTP.
Local Open Scope string_scope.

(** The JSON text [{"error":"<msg>"}] of the router's [http.Error] calls. *)
Definition json_error (msg : string) : string :=
  "{" ++ dq ++ "error" ++ dq ++ ":" ++ dq ++ msg ++ dq ++ "}".

Definition withAuth {St} (jwt_Parse : string -> parse_result) (next : Handler St)
  : Handler St :=
  fun w req s =>
    let authHeader := Header_Get (ReqHeader req) "Authorization" in
    if String.eqb authHeader "" || negb (HasPrefix authHeader "Bearer ") then
      Some (http_Error w (json_error "Unauthorized") 401, s)
    else
      let token := TrimPrefix authHeader "Bearer " in
      match ValidateToken jwt_Parse token with
      | VErr _ => Some (http_Error w (json_error "Unauthorized") 401, s)
      | VPanic => None
      | VOk claims =>
          next w (WithContext req (WithValue (ReqCtx req) UserIDKey
                                     (CtxString (UserID claims)))) s
      end.

Definition withCommunity {St} (next : Handler St) : Handler St :=
  fun w req s =>
    let communityID := PathCommunityID req in
    if String.eqb communityID "" then
      Some (http_Error w (json_error "Community ID is required") 400, s)
    else next w (WithContext req (WithValue (ReqCtx req) CommunityIDKey
                                    (CtxString communityID))) s.

(** [withRateLimit]; the wrapped handler does not touch the limiter. *)
Definition withRateLimit (limiter : RateLimiter)
    (next : RespHeader -> Request -> Response) (w : RespHeader) (req : Request) (now : Z)
  : option (Response * RateLimiter) :=
  let key := GetClientIP req in
  match Allow limiter key now with
  | None => None
  | Some (false, limiter') =>
      Some (http_Error (hset (hset w "Content-Type" "application/json") "Retry-After" "60")
              (json_error "Rate limit exceeded") 429, limiter')
  | Some (true, limiter') => Some (next w req, limiter')
  end.

(** [withMembership]; [membershipChecker] is [None] when it is nil. *)
Definition withMembership {St}
    (membershipChecker : option (Context -> string -> string -> result bool))
    (next : Handler St) : Handler St :=
  fun w req s =>
    match Value_string (ReqCtx req) UserIDKey with
    | None => Some (http_Error w (json_error "Unauthorized") 401, s)
    | Some userID =>
    if String.eqb userID "" then Some (http_Error w (json_error "Unauthorized") 401, s) else
    match Value_string (ReqCtx req) CommunityIDKey with
    | None => Some (http_Error w (json_error "Community ID is required") 400, s)
    | Some communityID =>
    if String.eqb communityID "" then
      Some (http_Error w (json_error "Community ID is required") 400, s) else
    match membershipChecker with
    | None => next w req s
    | Some IsMember =>
        match IsMember (ReqCtx req) communityID userID with
        | Err _ => Some (http_Error w (json_error "Failed to verify membership") 500, s)
        | Ok false => Some (http_Error w (json_error "Not a member of this community") 403, s)
        | Ok true => next w req s
        end
    end end end.

(** [POST /api/v1/communities/{communityID}/invites]. *)
Definition inviteRoute {St} (jwt_Parse : string -> parse_result)
    (membershipChecker : option (Context -> string -> string -> result bool))
    (createInvite : Handler St) : Handler St :=
  withAuth jwt_Parse (withCommunity (withMembership membershipChecker createInvite)).

(** [n] requests served in turn through [withRateLimit], at [times]. *)
Fixpoint serve_all (limiter : RateLimiter) (next : RespHeader -> Request -> Response)
    (w : RespHeader) (reqs : list (Request * Z)) : option (list Response * RateLimiter) :=
  match reqs with
  | [] => Some ([], limiter)
  | (req, now) :: rest =>
      match withRateLimit limiter next w req now with
      | None => None
      | Some (resp, limiter') =>
          match serve_all limiter' next w rest with
          | None => None
          | Some (resps, limiter'') => Some (resp :: resps, limiter'')
          end
      end
  end.

End Router.

(** ** [api/response.go] *)
Module ApiResponse.
Import GoStd CtxKeys.
Local Open Scope string_scope.

Definition GetRequestID (ctx : Context) : string :=
  match Value_string ctx RequestIDKey with Some id => id | None => "" end.

(** [WriteError]: [ErrorResponse] with [requestId] omitted when empty. *)
Definition WriteError (w : RespHeader) (r : Request) (statusCode : Z) (message : string)
  : Response :=
  let w1 := hset w "Content-Type" "application/json" in
  let requestID := GetRequestID (ReqCtx r) in
  let w2 := if negb (String.eqb requestID "") then hset w1 "X-Request-Id" requestID else w1 in
  mkResponse statusCode w2
    (BodyJSON (JObj ([("error", JStr message)]
                     ++ (if String.eqb requestID "" then []
                         else [("requestId", JStr requestID)])))).

(** [RequestIDMiddleware], with [uuid.New().String()] as [newUUID]. *)
Definition RequestIDMiddleware {St} (newUUID : string) (next : Handler St) : Handler St :=
  fun w r s =>
    let requestID := Header_Get (ReqHeader r) "X-Request-Id" in
    let requestID := if String.eqb requestID "" then newUUID else requestID in
    let ctx := WithValue (ReqCtx r) RequestIDKey (CtxString requestID) in
    next (hset w "X-Request-Id" requestID) (WithContext r ctx) s.

End ApiResponse.

(** ** [part_004]: [handlers.AuthHandler] over the identity service *)
Module AuthHandlerM.
Import GoStd Identity InviteHandlerM.
Local Open Scope string_scope.
Local Open Scope go_scope.

Definition error_eq_dec (x y : error) : {x = y} + {x <> y}.
Proof. decide equality; apply string_dec. Defined.

(** [errors.Is(err, target)] for a sentinel [target]: [err] or an error it
    wraps is the target. *)
Fixpoint errors_Is (err target : error) : bool :=
  (if error_eq_dec err target then true else false)
  || match err with
     | Wrapped _ inner => errors_Is inner target
     | _ => false
     end.

Record RegisterRequest := mkRegisterRequest {
  RR_Email : string;
  RR_Password : string;
  RR_Handle : string;
  RR_InviteCode : string
}.

Record LoginRequest := mkLoginRequest { LR_Email : string; LR_Password : string }.
Record RefreshRequest := mkRefreshRequest { RF_RefreshToken : string }.
Record LogoutRequest := mkLogoutRequest { LO_RefreshToken : string }.

(** The [TokenService] interface the handler holds. *)
Record TokenService := mkTokenService {
  ts_GenerateAccessToken : string -> result string;
  ts_GenerateRefreshToken : string -> result string
}.

Definition handleRegistrationError (w : RespHeader) (err : error) : Response :=
  if errors_Is err ErrEmailAlreadyRegistered then writeErrorResponse w 409 "Email already registered"
  else if errors_Is err ErrHandleAlreadyTaken then writeErrorResponse w 409 "Handle already taken"
  else if errors_Is err ErrPasswordTooShort then
    writeErrorResponse w 400 "Password must be at least 8 characters"
  else if errors_Is err ErrPasswordTooWeak then
    writeErrorResponse w 400 "Password must contain at least one letter and one number"
  else if errors_Is err ErrInvalidInviteCode then writeErrorResponse w 400 "Invalid invite code"
  else if errors_Is err ErrInviteExpired then writeErrorResponse w 400 "Invite has expired"
  else if errors_Is err ErrInviteExhausted then writeErrorResponse w 400 "Invite has been exhausted"
  else if errors_Is err ErrHandleInvalidChars then
    writeErrorResponse w 400 "Handle can only contain letters, numbers, and underscores"
  else if errors_Is err ErrHandleTooLong then
    writeErrorResponse w 400 "Handle must be 20 characters or less"
  else if errors_Is err ErrHandleTooShort then
    writeErrorResponse w 400 "Handle must be at least 3 characters"
  else if errors_Is err ErrInvalidEmailFormat then writeErrorResponse w 400 "Invalid email format"
  else writeErrorResponse w 500 "Registration failed".

(** A call of the service whose [error] result the handler inspects. *)
Definition try_ {St A} (m : M St A) : M St (result A) :=
  fun w => let (r, w') := m w in (Ok r, w').

Section Handlers.
Context {St : Type} (svc : Service St) (tokenService : TokenService).

(** [AuthHandler.Register], with [time.Now()] and [uuid.New().String()] of
    the service as [now] and [newID]; [decode] as for the invite handler. *)
Definition RegisterHandler (w : RespHeader) (now : Z) (newID : string)
    (decode : option RegisterRequest) : M St Response :=
  match decode with
  | None => ret (writeErrorResponse w 400 "Invalid request body")
  | Some req =>
  res <- try_ (Register svc now newID (RR_Email req) (RR_Password req) (RR_Handle req)
                 (RR_InviteCode req)) ;;
  match res with
  | Err e => ret (handleRegistrationError w e)
  | Ok user =>
  match ts_GenerateAccessToken tokenService (ID user) with
  | Err _ => ret (writeErrorResponse w 500 "Failed to generate access token")
  | Ok accessToken =>
  match ts_GenerateRefreshToken tokenService (ID user) with
  | Err _ => ret (writeErrorResponse w 500 "Failed to generate refresh token")
  | Ok refreshToken =>
      ret (writeJSONResponse w 201
             (JObj [("accessToken", JStr accessToken);
                    ("refreshToken", JStr refreshToken);
                    (* Email is empty, so [omitempty] drops it *)
                    ("user", JObj [("id", JStr (ID user)); ("handle", JStr (Handle user));
                                   ("reputation", JInt (Reputation user))])]))
  end end end end.

Definition LoginHandler (w : RespHeader) (decode : option LoginRequest) : M St Response :=
  match decode with
  | None => ret (writeErrorResponse w 400 "Invalid request body")
  | Some req =>
  res <- try_ (Login svc (LR_Email req) (LR_Password req)) ;;
  match res with
  | Err e =>
      if errors_Is e ErrInvalidCredentials
      then ret (writeErrorResponse w 401 "Invalid credentials")
      else ret (writeErrorResponse w 500 "Login failed")
  | Ok authResp =>
      ret (writeJSONResponse w 200
             (JObj [("accessToken", JStr (AccessToken authResp));
                    ("refreshToken", JStr (RefreshToken authResp));
                    ("expiresIn", JInt 900)]))
  end
  end.

Definition RefreshHandler (w : RespHeader) (decode : option RefreshRequest) : M St Response :=
  match decode with
  | None => ret (writeErrorResponse w 400 "Invalid request body")
  | Some req =>
  res <- try_ (RefreshTokens svc (RF_RefreshToken req)) ;;
  match res with
  | Err e =>
      if errors_Is e ErrTokenRevoked then ret (writeErrorResponse w 401 "Token has been revoked")
      else if errors_Is e ErrTokenExpired then ret (writeErrorResponse w 401 "Token has expired")
      else ret (writeErrorResponse w 401 "Invalid token")
  | Ok authResp =>
      ret (writeJSONResponse w 200
             (JObj [("accessToken", JStr (AccessToken authResp));
                    ("refreshToken", JStr (RefreshToken authResp))]))
  end
  end.

End Handlers.

(** [AuthHandler.Logout]; [logoutService] is [None] when it is nil, and
    its [RevokeToken] acts on the store state [St]. *)
Definition LogoutHandler {St} (logoutService : option (St -> string -> result St))
    (decode : option LogoutRequest) : Handler St :=
  fun w r s =>
  let authHeader := Header_Get (ReqHeader r) "Authorization" in
  if String.eqb authHeader "" || negb (HasPrefix authHeader "Bearer ") then
    Some (writeErrorResponse w 401 "Missing or invalid authorization header", s) else
  let decoded := if HasBody r && (ContentLength r >? 0) then decode
                 else Some (mkLogoutRequest "") in
  match decoded with
  | None => Some (writeErrorResponse w 400 "Invalid request body", s)
  | Some req =>
  match logoutService with
  | Some RevokeToken =>
      if negb (String.eqb (LO_RefreshToken req) "") then
        match RevokeToken s (LO_RefreshToken req) with
        | Err _ => Some (writeErrorResponse w 500 "Failed to revoke token", s)
        | Ok s' => Some (WriteHeaderOnly w 200, s')
        end
      else Some (WriteHeaderOnly w 200, s)
  | None => Some (WriteHeaderOnly w 200, s)
  end
  end.

(** [POST /api/v1/auth/logout]: [r.withAuth(r.authHandler.Logout)]. *)
Definition logoutRoute {St} (jwt_Parse : string -> JWT.parse_result)
    (logoutService : option (St -> string -> result St)) (decode : option LogoutRequest)
  : Handler St :=
  Router.withAuth jwt_Parse (LogoutHandler logoutService decode).

End AuthHandlerM.


(** ** Runs of the rate limiter: calls in sequence *)
Module RateLimitRuns.
Import RateLimit.

(** [Allow(key)] calls in turn, each at its own instant. *)
Fixpoint allow_seq (rl : RateLimiter) (calls : list (string * Z))
  : option (list bool * RateLimiter) :=
  match calls with
  | [] => Some ([], rl)
  | (key, now) :: rest =>
      match Allow rl key now with
      | None => None
      | Some (b, rl1) =>
          match allow_seq rl1 rest with
          | None => None
          | Some (bs, rl2) => Some (b :: bs, rl2)
          end
      end
  end.

(** The instants of [calls] never go back, from [t0] on ([time.Now()] reads
    the monotonic clock). *)
Fixpoint nondecreasing (t0 : Z) (calls : list (string * Z)) : bool :=
  match calls with
  | [] => true
  | (_, t) :: rest => (t0 <=? t) && nondecreasing t rest
  end.

End RateLimitRuns.


(** ** Repeated use of an invite on the in-memory store *)
Module InviteRuns.
Import Identity InMemory InviteCreate.

(** [UseInvite] called [n] times in a row on the same code. *)
Fixpoint use_n (s : state) (code : string) (n : nat) : result state :=
  match n with
  | O => Ok s
  | S n' =>
      match UseInvite invite_IncrementUsage s code with
      | Err e => Err e
      | Ok s1 => use_n s1 code n'
      end
  end.

End InviteRuns.

(** * Proofs *)

Module GoIntFacts.

Lemma wrap64_id (z : Z) : int_min <= z <= int_max -> wrap64 z = z.
Proof.
  unfold wrap64, int_min, int_max; intros H.
  rewrite Z.mod_small by lia. lia.
Qed.

Lemma sub_sat_in (t u : Z) : int_min <= t - u <= int_max -> sub_sat t u = t - u.
Proof. unfold sub_sat; lia. Qed.

End GoIntFacts.

Module RateLimitFacts.
Import RateLimit GoIntFacts.

Lemma map_set_same (m : bucket_map) k v : map_set m k v k = Some v.
Proof. unfold map_set; now rewrite String.eqb_refl. Qed.

Lemma map_set_other (m : bucket_map) k k' v : k' <> k -> map_set m k v k' = m k'.
Proof. intros H; unfold map_set; now rewrite (proj2 (String.eqb_neq k' k) H). Qed.

(** The first call on an absent key always admits. *)
Lemma Allow_fresh (rl : RateLimiter) key now :
  buckets rl key = None ->
  Allow rl key now
  = Some (true, with_buckets rl
                  (map_set (buckets rl) key (mkBucket (wrap64 (capacity rl - 1)) now))).
Proof. intros H; unfold Allow; now rewrite H. Qed.

(** A call on a present key, [elapsed] nanoseconds after its last check,
    with no overflow anywhere. *)
Lemma Allow_present (rl : RateLimiter) key b now :
  buckets rl key = Some b ->
  0 < interval rl ->
  0 <= now - lastCheck b <= int_max ->
  0 <= rate rl -> 0 <= tokens b ->
  tokens b + (now - lastCheck b) / interval rl * rate rl <= int_max ->
  let t := Z.min (tokens b + (now - lastCheck b) / interval rl * rate rl) (capacity rl) in
  Allow rl key now
  = Some (t >? 0, with_buckets rl (map_set (buckets rl) key
                    (mkBucket (if t >? 0 then t - 1 else t) now))).
Proof.
  intros Hb Hi Hd Hr Ht Hmax t.
  unfold Allow; rewrite Hb.
  rewrite sub_sat_in by (unfold int_min, int_max in *; lia).
  unfold div64.
  replace (interval rl =? 0) with false by (symmetry; apply Z.eqb_neq; lia).
  rewrite Z.quot_div_nonneg by lia.
  set (d := now - lastCheck b) in *.
  assert (Hq : 0 <= d / interval rl <= d).
  { split; [apply Z.div_pos; lia | apply Z.div_le_upper_bound; nia]. }
  assert (Hqr : 0 <= d / interval rl * rate rl) by nia.
  rewrite (wrap64_id (d / interval rl)) by (unfold int_min, int_max in *; lia).
  rewrite (wrap64_id (d / interval rl * rate rl)) by (unfold int_min, int_max in *; lia).
  rewrite (wrap64_id (tokens b + d / interval rl * rate rl))
    by (unfold int_min, int_max in *; lia).
  subst t.
  destruct (tokens b + d / interval rl * rate rl >? capacity rl) eqn:E.
  - apply Z.gtb_lt in E. rewrite Z.min_r by lia.
    now destruct (capacity rl >? 0).
  - rewrite Z.gtb_ltb, Z.ltb_ge in E. rewrite Z.min_l by lia.
    now destruct (_ >? 0).
Qed.

Lemma allow_n_S rl key now n :
  allow_n rl key now (S n)
  = match Allow rl key now with
    | None => None
    | Some (b, rl1) =>
        match allow_n rl1 key now n with
        | None => None
        | Some (bs, rl2) => Some (b :: bs, rl2)
        end
    end.
Proof. reflexivity. Qed.

(** Calls at the instant of the last check spend the bucket one token at
    a time: [n] tokens give [n] admissions, then a denial. *)
Lemma allow_n_drain key now (n : nat) :
  forall rl,
  buckets rl key = Some (mkBucket (Z.of_nat n) now) ->
  0 < interval rl -> 0 <= rate rl ->
  Z.of_nat n <= capacity rl <= int_max ->
  exists rl', allow_n rl key now (S n) = Some (repeat true n ++ [false], rl').
Proof.
  induction n as [|n IH]; intros rl Hb Hi Hr Hc.
  - rewrite allow_n_S.
    rewrite (Allow_present rl key _ now Hb) by (cbn [tokens lastCheck]; rewrite ?Z.sub_diag, ?Z.div_0_l by lia; unfold int_max in *; lia).
    cbn [tokens lastCheck].
    rewrite Z.sub_diag, Z.div_0_l, Z.mul_0_l, Z.add_0_r by lia.
    rewrite Z.min_l by lia.
    eexists; reflexivity.
  - rewrite allow_n_S.
    rewrite (Allow_present rl key _ now Hb) by (cbn [tokens lastCheck]; rewrite ?Z.sub_diag, ?Z.div_0_l by lia; unfold int_max in *; lia).
    cbn [tokens lastCheck].
    rewrite Z.sub_diag, Z.div_0_l, Z.mul_0_l, Z.add_0_r by lia.
    rewrite Z.min_l by lia.
    replace (Z.of_nat (S n) >? 0) with true by (symmetry; apply Z.gtb_lt; lia).
    destruct (IH (with_buckets rl (map_set (buckets rl) key
                   (mkBucket (Z.of_nat (S n) - 1) now)))) as [rl' Hrl'].
    + cbn [buckets with_buckets]. rewrite map_set_same. do 2 f_equal. lia.
    + exact Hi.
    + exact Hr.
    + cbn [capacity with_buckets]. lia.
    + cbv beta iota. rewrite Hrl'. eexists; reflexivity.
Qed.

(** Calls on one key never touch the bucket of another key. *)
Lemma Allow_other_key (rl rl' : RateLimiter) k1 k2 now b :
  k1 <> k2 -> Allow rl k1 now = Some (b, rl') -> buckets rl' k2 = buckets rl k2.
Proof.
  intros Hk H; unfold Allow in H.
  destruct (buckets rl k1) as [bk|].
  - destruct (div64 _ _) as [q|]; [|discriminate].
    destruct (_ >? 0); injection H as <- <-; simpl; apply map_set_other; congruence.
  - injection H as <- <-; simpl; apply map_set_other; congruence.
Qed.

Lemma allow_n_other_key k1 k2 now (n : nat) :
  k1 <> k2 ->
  forall rl bs rl', allow_n rl k1 now n = Some (bs, rl') -> buckets rl' k2 = buckets rl k2.
Proof.
  intros Hk; induction n as [|n IH]; intros rl bs rl' H; simpl in H.
  - congruence.
  - destruct (Allow rl k1 now) as [[b rl1]|] eqn:E; [|discriminate].
    destruct (allow_n rl1 k1 now n) as [[bs1 rl2]|] eqn:E2; [|discriminate].
    injection H as _ <-.
    rewrite (IH _ _ _ E2). exact (Allow_other_key _ _ _ _ _ _ Hk E).
Qed.

(** A run of calls, none of them on [k2], leaves the bucket of [k2] as it was. *)
Lemma allow_seq_other_key k2 calls :
  Forall (fun c => fst c <> k2) calls ->
  forall rl bs rl', RateLimitRuns.allow_seq rl calls = Some (bs, rl') ->
  buckets rl' k2 = buckets rl k2.
Proof.
  induction 1 as [|[k1 now] calls Hk Hall IH]; intros rl bs rl' H; simpl in H.
  - congruence.
  - destruct (Allow rl k1 now) as [[b rl1]|] eqn:E; [|discriminate].
    destruct (RateLimitRuns.allow_seq rl1 calls) as [[bs1 rl2]|] eqn:E2; [|discriminate].
    injection H as _ <-.
    rewrite (IH _ _ _ E2). exact (Allow_other_key _ _ _ _ _ _ Hk E).
Qed.

End RateLimitFacts.

Module RateLimitClaims.
Import RateLimit GoIntFacts RateLimitFacts.

(** C7 (amended). For a limiter built by [NewRateLimiter r i] with
    [1 <= r < 2^62] (so that [2*r] fits in Go's [int]) and a positive
    interval: its capacity is [2*r]; on a key without a bucket, [2*r]
    calls at one instant are all admitted and the next one is denied; a
    later call on a bucket holding [t >= 0] tokens, [d >= 0] nanoseconds
    after its last check, first refills [floor(d/i)*r] tokens capped at
    the capacity (when [t + floor(d/i)*r] fits in an [int]) and then
    admits by spending one token exactly when one remains; and a call on
    one key never changes the bucket of another key, so after any run of
    calls on other keys, at any instants, a fresh key is still admitted. *)
Theorem Allow_burst_refill_isolation (r i : Z) :
  1 <= r < 2 ^ 62 -> 0 < i ->
  capacity (NewRateLimiter r i) = 2 * r /\
  (forall rl key now,
     rate rl = r -> interval rl = i -> capacity rl = 2 * r ->
     buckets rl key = None ->
     exists rl', allow_n rl key now (Z.to_nat (2 * r) + 1)
                 = Some (repeat true (Z.to_nat (2 * r)) ++ [false], rl')) /\
  (forall rl key b now,
     rate rl = r -> interval rl = i -> capacity rl = 2 * r ->
     buckets rl key = Some b -> 0 <= tokens b ->
     0 <= now - lastCheck b <= int_max ->
     tokens b + (now - lastCheck b) / i * r <= int_max ->
     let t := Z.min (tokens b + (now - lastCheck b) / i * r) (2 * r) in
     Allow rl key now
     = Some (t >? 0, with_buckets rl (map_set (buckets rl) key
                       (mkBucket (if t >? 0 then t - 1 else t) now)))) /\
  (forall rl k1 k2 now b rl',
     k1 <> k2 -> Allow rl k1 now = Some (b, rl') -> buckets rl' k2 = buckets rl k2) /\
  (forall rl calls k2 bs rl' now',
     Forall (fun c => fst c <> k2) calls ->
     RateLimitRuns.allow_seq rl calls = Some (bs, rl') -> buckets rl k2 = None ->
     exists rl'', Allow rl' k2 now' = Some (true, rl'')).
Proof.
  intros Hr Hi.
  split; [|split; [|split; [|split]]].
  - cbn [capacity NewRateLimiter]. rewrite wrap64_id by (unfold int_min, int_max; lia).
    lia.
  - intros rl key now Hrate Hint Hcap Hnone.
    replace (Z.to_nat (2 * r) + 1)%nat with (S (S (Z.to_nat (2 * r - 1)))) by lia.
    rewrite allow_n_S, (Allow_fresh rl key now Hnone).
    rewrite Hcap, (wrap64_id (2 * r - 1)) by (unfold int_min, int_max; lia).
    destruct (allow_n_drain key now (Z.to_nat (2 * r - 1))
                (with_buckets rl (map_set (buckets rl) key (mkBucket (2 * r - 1) now))))
      as [rl' Hrl'].
    + cbn [buckets with_buckets]. rewrite map_set_same. do 2 f_equal. lia.
    + cbn [interval with_buckets]. lia.
    + cbn [rate with_buckets]. lia.
    + cbn [capacity with_buckets]. unfold int_max. lia.
    + rewrite Hrl'.
      replace (Z.to_nat (2 * r)) with (S (Z.to_nat (2 * r - 1))) by lia.
      eexists; reflexivity.
  - intros rl key b now Hrate Hint Hcap Hb Ht Hd Hmax t.
    subst i r.
    pose proof (Allow_present rl key b now Hb Hi Hd (ltac:(lia)) Ht Hmax) as H.
    rewrite Hcap in H. exact H.
  - intros rl k1 k2 now b rl' Hk H. exact (Allow_other_key rl rl' k1 k2 now b Hk H).
  - intros rl calls k2 bs rl' now' Hall Hrun Hfresh.
    rewrite <- (allow_seq_other_key k2 calls Hall rl bs rl' Hrun) in Hfresh.
    eexists. exact (Allow_fresh rl' k2 now' Hfresh).
Qed.

Lemma Allow_burst_refill_isolation_witness :
  (1 <= 3 < 2 ^ 62 /\ 0 < Minute) /\
  (capacity (NewRateLimiter 3 Minute) = 2 * 3 /\
   (forall rl key now,
      rate rl = 3 -> interval rl = Minute -> capacity rl = 2 * 3 ->
      buckets rl key = None ->
      exists rl', allow_n rl key now (Z.to_nat (2 * 3) + 1)
                  = Some (repeat true (Z.to_nat (2 * 3)) ++ [false], rl')) /\
   (forall rl key b now,
      rate rl = 3 -> interval rl = Minute -> capacity rl = 2 * 3 ->
      buckets rl key = Some b -> 0 <= tokens b ->
      0 <= now - lastCheck b <= int_max ->
      tokens b + (now - lastCheck b) / Minute * 3 <= int_max ->
      let t := Z.min (tokens b + (now - lastCheck b) / Minute * 3) (2 * 3) in
      Allow rl key now
      = Some (t >? 0, with_buckets rl (map_set (buckets rl) key
                        (mkBucket (if t >? 0 then t - 1 else t) now)))) /\
   (forall rl k1 k2 now b rl',
      k1 <> k2 -> Allow rl k1 now = Some (b, rl') -> buckets rl' k2 = buckets rl k2) /\
   (forall rl calls k2 bs rl' now',
      Forall (fun c => fst c <> k2) calls ->
      RateLimitRuns.allow_seq rl calls = Some (bs, rl') -> buckets rl k2 = None ->
      exists rl'', Allow rl' k2 now' = Some (true, rl''))).
Proof.
  split; [split; [lia | unfold Minute; lia] |].
  apply (Allow_burst_refill_isolation 3 Minute); [lia | unfold Minute; lia].
Defined.

(** C7 fails as stated: with a zero interval the second call divides by
    zero (a Go run-time panic), and with [r = 2^62] the capacity [2*r]
    wraps to [-2^63], so only the first call at an instant is admitted. *)
Lemma Allow_burst_claim_fails :
  allow_n (NewRateLimiter 3 0) "k"%string 0 7 = None /\
  capacity (NewRateLimiter (2 ^ 62) Minute) <> 2 * 2 ^ 62 /\
  option_map fst (allow_n (NewRateLimiter (2 ^ 62) Minute) "k"%string 0 2)
  = Some [true; false].
Proof.
  split; [vm_compute; reflexivity|].
  split; [vm_compute; discriminate | vm_compute; reflexivity].
Qed.

(** C8 (amended). One cleanup sweep keeps exactly the buckets idle for at
    most ten minutes, whatever the limiter's configured interval. *)
Theorem cleanup_tick_fixed_threshold (rl : RateLimiter) now key b :
  buckets (cleanup_tick rl now) key = Some b <->
  buckets rl key = Some b /\ sub_sat now (lastCheck b) <= 10 * Minute.
Proof.
  unfold cleanup_tick, with_buckets; cbn [buckets].
  destruct (buckets rl key) as [b0|].
  - destruct (sub_sat now (lastCheck b0) >? 10 * Minute) eqn:E.
    + apply Z.gtb_lt in E. split; [discriminate|].
      intros [[= <-] Hle]. lia.
    + rewrite Z.gtb_ltb, Z.ltb_ge in E. split.
      * intros [= <-]. auto.
      * intros [[= <-] _]. reflexivity.
  - split; [discriminate | intros [H _]; discriminate].
Qed.

(** C8 fails as stated: a register limiter (5 per hour) loses a bucket idle
    for two hours, far below ten times its one-hour interval. *)
Lemma cleanup_tick_ignores_interval :
  2 * Hour - 0 <= 10 * interval (NewRateLimiter 5 Hour) /\
  option_map (fun '(_, rl1) => buckets rl1 "ip"%string)
    (Allow (NewRateLimiter 5 Hour) "ip"%string 0) = Some (Some (mkBucket 9 0)) /\
  option_map (fun '(_, rl1) => buckets (cleanup_tick rl1 (2 * Hour)) "ip"%string)
    (Allow (NewRateLimiter 5 Hour) "ip"%string 0) = Some None.
Proof.
  split; [unfold Hour, Minute; simpl; lia|].
  split; vm_compute; reflexivity.
Qed.

(** C10. The first [Allow] on a key without a bucket admits, whatever the
    construction parameters, and leaves a bucket of [capacity - 1] tokens
    (in Go's wrapping arithmetic); a limiter of rate 0 thus stores [-1]. *)
Theorem Allow_first_call_admits (rl : RateLimiter) key now :
  buckets rl key = None ->
  exists rl', Allow rl key now = Some (true, rl') /\
    buckets rl' key = Some (mkBucket (wrap64 (capacity rl - 1)) now) /\
    (capacity rl = wrap64 (rate rl * 2) -> rate rl = 0 ->
     buckets rl' key = Some (mkBucket (-1) now)).
Proof.
  intros H. eexists. split; [exact (Allow_fresh rl key now H)|].
  cbn [buckets with_buckets]. rewrite map_set_same. split; [reflexivity|].
  intros Hc Hr. rewrite Hc, Hr. reflexivity.
Qed.

Lemma Allow_first_call_admits_witness :
  buckets (NewRateLimiter 0 Minute) "k"%string = None /\
  exists rl', Allow (NewRateLimiter 0 Minute) "k"%string 0 = Some (true, rl') /\
    buckets rl' "k"%string
    = Some (mkBucket (wrap64 (capacity (NewRateLimiter 0 Minute) - 1)) 0) /\
    (capacity (NewRateLimiter 0 Minute) = wrap64 (rate (NewRateLimiter 0 Minute) * 2) ->
     rate (NewRateLimiter 0 Minute) = 0 ->
     buckets rl' "k"%string = Some (mkBucket (-1) 0)).
Proof.
  split; [reflexivity|].
  apply (Allow_first_call_admits (NewRateLimiter 0 Minute) "k"%string 0).
  reflexivity.
Defined.

End RateLimitClaims.

Module JWTClaims.
Import JWT.
Local Open Scope string_scope.

(** The error messages [ValidateToken] can return. *)
Definition validate_messages : list string :=
  ["token expired"; "invalid token"; "invalid token claims";
   "invalid user_id claim"; "invalid expiration claim"; "invalid issued at claim"].

(** [user_id] is missing, not a string, or the empty string. *)
Definition bad_user_id (claims : MapClaims) : Prop :=
  forall u, lookup "user_id" claims = Some (JString u) -> u = "".

(** The key is present and its value is not a number. *)
Definition not_a_number (claims : MapClaims) (k : string) : Prop :=
  exists v, lookup k claims = Some v /\ forall n, v <> JNumber n.

(** Case analysis on every [match] of the goal, innermost scrutinees first. *)
Ltac split_goal :=
  repeat match goal with
         | |- context [match ?x with _ => _ end] =>
             lazymatch x with
             | context [match _ with _ => _ end] => fail
             | _ => let E := fresh "E" in destruct x eqn:E
             end
         end.

Lemma VT_messages jwt_Parse tok msg :
  ValidateToken jwt_Parse tok = VErr msg -> In msg validate_messages.
Proof.
  unfold ValidateToken, parseNumericDate; revert msg; split_goal; intros msg H;
    try discriminate H; injection H as <-; unfold validate_messages; simpl; tauto.
Qed.

Lemma VT_expired jwt_Parse tok :
  ValidateToken jwt_Parse tok = VErr "token expired" <-> jwt_Parse tok = ParseError true.
Proof.
  split.
  - unfold ValidateToken, parseNumericDate; split_goal; intros H; try discriminate H; reflexivity.
  - intros E; unfold ValidateToken; rewrite E; reflexivity.
Qed.

Lemma VT_invalid jwt_Parse tok :
  ValidateToken jwt_Parse tok = VErr "invalid token"
  <-> jwt_Parse tok = ParseError false \/ exists c, jwt_Parse tok = Parsed false c.
Proof.
  split.
  - unfold ValidateToken, parseNumericDate; split_goal; intros H; try discriminate H.
    + left; reflexivity.
    + right; eexists; reflexivity.
  - intros [E|[c E]]; unfold ValidateToken; rewrite E; reflexivity.
Qed.

Lemma VT_claims jwt_Parse tok :
  ValidateToken jwt_Parse tok = VErr "invalid token claims" <-> jwt_Parse tok = Parsed true None.
Proof.
  split.
  - unfold ValidateToken, parseNumericDate; split_goal; intros H; try discriminate H; reflexivity.
  - intros E; unfold ValidateToken; rewrite E; reflexivity.
Qed.

Lemma VT_user_id jwt_Parse tok :
  ValidateToken jwt_Parse tok = VErr "invalid user_id claim"
  <-> exists claims, jwt_Parse tok = Parsed true (Some claims) /\ bad_user_id claims.
Proof.
  split.
  - unfold ValidateToken, parseNumericDate; split_goal; intros H; try discriminate H;
      eexists; (split; [reflexivity|]); unfold bad_user_id; intros u';
      match goal with E : lookup "user_id" _ = _ |- _ => rewrite E end; intros Hu';
      try discriminate Hu'; injection Hu' as <-; apply String.eqb_eq; assumption.
  - intros [claims [E Hb]]; unfold ValidateToken; rewrite E.
    unfold bad_user_id in Hb.
    destruct (lookup "user_id" claims) as [[u| | |]|]; try reflexivity.
    rewrite (Hb u eq_refl); reflexivity.
Qed.

Lemma VT_exp jwt_Parse tok :
  ValidateToken jwt_Parse tok = VErr "invalid expiration claim"
  <-> exists claims u, jwt_Parse tok = Parsed true (Some claims)
      /\ lookup "user_id" claims = Some (JString u) /\ u <> ""
      /\ not_a_number claims "exp".
Proof.
  split.
  - unfold ValidateToken, parseNumericDate; split_goal; intros H; try discriminate H;
      do 2 eexists; (split; [reflexivity|]); (split; [eassumption|]);
      (split; [apply String.eqb_neq; assumption|]);
      unfold not_a_number; eexists; (split; [eassumption|]); intros n Hn; discriminate Hn.
  - intros [claims [u [E [Eu [Hne [v [Ev Hv]]]]]]]; unfold ValidateToken, parseNumericDate.
    rewrite E, Eu. apply String.eqb_neq in Hne; rewrite Hne, Ev.
    destruct v; try reflexivity. exfalso; eapply Hv; reflexivity.
Qed.

Lemma VT_iat jwt_Parse tok :
  ValidateToken jwt_Parse tok = VErr "invalid issued at claim"
  <-> exists claims u, jwt_Parse tok = Parsed true (Some claims)
      /\ lookup "user_id" claims = Some (JString u) /\ u <> ""
      /\ (forall v, lookup "exp" claims = Some v -> exists n, v = JNumber n)
      /\ not_a_number claims "iat".
Proof.
  split.
  - unfold ValidateToken, parseNumericDate; split_goal; intros H; try discriminate H;
      do 2 eexists; (split; [reflexivity|]); (split; [eassumption|]);
      (split; [apply String.eqb_neq; assumption|]);
      (split; [intros v;
               match goal with E : lookup "exp" _ = _ |- _ => rewrite E end; intros Hv;
               first [discriminate Hv | injection Hv as <-; subst; eexists; reflexivity]|]);
      unfold not_a_number; eexists; (split; [eassumption|]); intros n0 Hn; discriminate Hn.
  - intros [claims [u [E [Eu [Hne [Hexp [v [Ev Hv]]]]]]]]; unfold ValidateToken, parseNumericDate.
    rewrite E, Eu. apply String.eqb_neq in Hne; rewrite Hne, Ev.
    destruct (lookup "exp" claims) as [ve|] eqn:Ee.
    + destruct (Hexp ve eq_refl) as [n ->].
      destruct v; try (exfalso; eapply Hv; reflexivity);
        destruct (Z.eqb n 0); reflexivity.
    + destruct v; try reflexivity. exfalso; eapply Hv; reflexivity.
Qed.

(** C4 (amended). Every error of [ValidateToken] is one of six fixed
    messages, and each is returned exactly in its own case: "token
    expired" when [jwt.Parse] reports [ErrTokenExpired]; "invalid token"
    when the parse fails for any other reason or the token is not valid;
    and, for a validly signed, unexpired token, "invalid token claims" when
    the claims are not a [jwt.MapClaims], "invalid user_id claim" when
    [user_id] is missing, not a string or empty, "invalid expiration claim"
    when, with a good [user_id], [exp] is present and not a number, and
    "invalid issued at claim" when, with a good [user_id] and [exp], [iat]
    is present and not a number. *)
Theorem ValidateToken_error_classes jwt_Parse tok :
  (forall msg, ValidateToken jwt_Parse tok = VErr msg -> In msg validate_messages) /\
  (ValidateToken jwt_Parse tok = VErr "token expired"
     <-> jwt_Parse tok = ParseError true) /\
  (ValidateToken jwt_Parse tok = VErr "invalid token"
     <-> jwt_Parse tok = ParseError false \/ exists c, jwt_Parse tok = Parsed false c) /\
  (ValidateToken jwt_Parse tok = VErr "invalid token claims"
     <-> jwt_Parse tok = Parsed true None) /\
  (ValidateToken jwt_Parse tok = VErr "invalid user_id claim"
     <-> exists claims, jwt_Parse tok = Parsed true (Some claims) /\ bad_user_id claims) /\
  (ValidateToken jwt_Parse tok = VErr "invalid expiration claim"
     <-> exists claims u, jwt_Parse tok = Parsed true (Some claims)
         /\ lookup "user_id" claims = Some (JString u) /\ u <> ""
         /\ not_a_number claims "exp") /\
  (ValidateToken jwt_Parse tok = VErr "invalid issued at claim"
     <-> exists claims u, jwt_Parse tok = Parsed true (Some claims)
         /\ lookup "user_id" claims = Some (JString u) /\ u <> ""
         /\ (forall v, lookup "exp" claims = Some v -> exists n, v = JNumber n)
         /\ not_a_number claims "iat").
Proof.
  split; [exact (VT_messages jwt_Parse tok)|].
  split; [exact (VT_expired jwt_Parse tok)|].
  split; [exact (VT_invalid jwt_Parse tok)|].
  split; [exact (VT_claims jwt_Parse tok)|].
  split; [exact (VT_user_id jwt_Parse tok)|].
  split; [exact (VT_exp jwt_Parse tok)|].
  exact (VT_iat jwt_Parse tok).
Qed.

(** C4 fails as stated: a token signed with the server's secret, unexpired,
    whose payload has no [user_id] (or a numeric one) is rejected with
    "invalid user_id claim", a message outside the two classes that names
    the failed check. *)
Lemma ValidateToken_names_failed_check :
  ValidateToken
    (fun _ => Parsed true (Some [("exp", JNumber 2000000000);
                                 ("iat", JNumber 1700000000);
                                 ("jti", JString "t-1")]))
    "tok" = VErr "invalid user_id claim" /\
  ValidateToken
    (fun _ => Parsed true (Some [("user_id", JNumber 42);
                                 ("exp", JNumber 2000000000);
                                 ("iat", JNumber 1700000000)]))
    "tok" = VErr "invalid user_id claim" /\
  "invalid user_id claim" <> "invalid token" /\
  "invalid user_id claim" <> "token expired".
Proof. repeat split; try reflexivity; discriminate. Qed.

End JWTClaims.

Module IdentityFacts.
Import Identity.
Local Open Scope string_scope.

(** [ValidateInvite] (the later version) follows the exhaustion rule on an
    unexpired invite, provided the community lookup does not itself answer
    [ErrInviteExhausted]. *)
Lemma ValidateInvite_exhaustion_rule FindByCode FindByID now code invite :
  FindByCode code = Ok invite ->
  now <= ExpiresAt invite ->
  (forall id, FindByID id <> Err ErrInviteExhausted) ->
  (ValidateInvite FindByCode FindByID now code = Err ErrInviteExhausted <->
   0 < MaxUses invite /\ MaxUses invite <= UsedCount invite).
Proof.
  intros Hf Ht Hc. unfold ValidateInvite. rewrite Hf.
  replace (now >? ExpiresAt invite) with false by (symmetry; rewrite Z.gtb_ltb; apply Z.ltb_ge; lia).
  destruct (MaxUses invite >? 0) eqn:E1; destruct (UsedCount invite >=? MaxUses invite) eqn:E2;
    simpl; rewrite ?Z.gtb_lt, ?Z.gtb_ltb, ?Z.ltb_ge, ?Z.ltb_lt, ?Z.geb_le, ?Z.geb_leb,
           ?Z.leb_le, ?Z.leb_gt in *;
    split; intros H; try lia; try (exfalso; exact (Hc _ H)); try reflexivity.
Qed.

Lemma validators_not_exhausted s :
  validateEmail s <> Some ErrInviteExhausted /\
  validatePassword s <> Some ErrInviteExhausted /\
  validateHandle s <> Some ErrInviteExhausted.
Proof.
  unfold validateEmail, validatePassword, validateHandle.
  repeat split; repeat (match goal with |- context [if ?b then _ else _] => destruct b end);
    discriminate.
Qed.

(** [Register] answers [ErrInviteExhausted] on an unexpired invite exactly
    when [MaxUses > 0 && UsedCount >= MaxUses]. *)
Lemma Register_exhaustion_rule {St} (svc : Service St) s tr now newID
    email password handle code invite :
  inviteRepo_FindByCode svc s code = Ok invite ->
  now <= ExpiresAt invite ->
  (fst (Register svc now newID email password handle code (s, tr)) = Err ErrInviteExhausted <->
   0 < MaxUses invite /\ MaxUses invite <= UsedCount invite).
Proof.
  intros Hf Ht.
  pose proof (validators_not_exhausted email) as [He _].
  pose proof (validators_not_exhausted password) as [_ [Hp _]].
  pose proof (validators_not_exhausted handle) as [_ [_ Hh]].
  unfold Register, isHandleAvailable, bind, read_call, write_call, ret, throw.
  cbn beta iota. rewrite Hf.
  replace (now >? ExpiresAt invite) with false by (symmetry; rewrite Z.gtb_ltb; apply Z.ltb_ge; lia).
  destruct ((MaxUses invite >? 0) && (UsedCount invite >=? MaxUses invite)) eqn:E.
  - apply andb_true_iff in E as [E1 E2]. apply Z.gtb_lt in E1. apply Z.geb_le in E2.
    simpl. split; [intros _; lia | reflexivity].
  - assert (~ (0 < MaxUses invite /\ MaxUses invite <= UsedCount invite)) as Hn.
    { intros [H1 H2]. apply andb_false_iff in E as [E|E];
        [rewrite Z.gtb_ltb, Z.ltb_ge in E | rewrite Z.geb_leb, Z.leb_gt in E]; lia. }
    split; [|intros H; contradiction]. intros H; exfalso.
    destruct (validateEmail email) eqn:Ee; [simpl in H; congruence|].
    destruct (validatePassword password) eqn:Ep; [simpl in H; congruence|].
    destruct (validateHandle handle) eqn:Eh; [simpl in H; congruence|].
    destruct (userRepo_FindByEmail svc s email); [discriminate|].
    destruct (userRepo_FindByHandle svc s handle); [discriminate|].
    destruct (hasher_Hash svc password); [|discriminate].
    destruct (userRepo_Create svc s _); [|discriminate].
    destruct (inviteRepo_IncrementUsage svc _ code); discriminate.
Qed.

End IdentityFacts.

Module IdentityClaims.
Import Identity InMemory.
Local Open Scope string_scope.
Local Open Scope list_scope.

(** C1 (code bug). The first [ValidateInvite] of [invite.go] (lines 64-76)
    answers [ErrInviteExhausted] for an unexpired, never used invite with
    [MaxUses = 0], which the later version (lines 157-169) and
    [Register] treat as unlimited. *)
Theorem ValidateInvite_v1_exhausts_unlimited_invite :
  let invite := mkInvite "UNLIMITED_INVITE_CODE_1234567890" 0 0 1000
                  "community-123" "creator-456" in
  let FindByCode := fun code => if String.eqb code (Code invite) then Ok invite
                                else Err ErrInviteNotFound in
  let FindByID := fun id => Ok (mkCommunity id "Test Community") in
  ValidateInvite_v1 FindByCode FindByID 0 "UNLIMITED_INVITE_CODE_1234567890"
  = Err ErrInviteExhausted /\
  ValidateInvite FindByCode FindByID 0 "UNLIMITED_INVITE_CODE_1234567890"
  = Ok (mkCommunity "community-123" "Test Community").
Proof. split; reflexivity. Qed.

(** C2. Refresh-token rotation, for any stores and collaborators: once the
    presented token validates, a token the revocation store reports revoked
    is refused with [ErrTokenRevoked]; otherwise the token is revoked before
    any token is generated, a failed revocation ends the call with an error
    before any generation, and, for a store that reports revoked what it
    revoked, replaying a token that was just used once is refused with
    [ErrTokenRevoked]. *)
Theorem RefreshTokens_rotation {St} (svc : Service St) (s : St) (tr : list call)
    (tok uid : string) :
  tokenValidator_ValidateRefreshToken svc tok = Ok uid ->
  (refreshTokenRepo_IsRevoked svc s tok = Ok true ->
   RefreshTokens svc tok (s, tr)
   = (Err ErrTokenRevoked, (s, tr ++ [CValidateRefreshToken tok; CIsRevoked tok]))) /\
  (refreshTokenRepo_IsRevoked svc s tok = Ok false ->
   (forall e, refreshTokenRepo_Revoke svc s tok = Err e ->
      RefreshTokens svc tok (s, tr)
      = (Err (Wrapped "failed to revoke old token" e),
         (s, tr ++ [CValidateRefreshToken tok; CIsRevoked tok; CRevoke tok]))) /\
   (forall s', refreshTokenRepo_Revoke svc s tok = Ok s' ->
      exists r rest,
        RefreshTokens svc tok (s, tr)
        = (r, (s', tr ++ [CValidateRefreshToken tok; CIsRevoked tok; CRevoke tok] ++ rest)) /\
        Forall (fun c => c = CGenerateAccessToken uid \/ c = CGenerateRefreshToken uid) rest)) /\
  ((forall s0 s0', refreshTokenRepo_Revoke svc s0 tok = Ok s0' ->
                   refreshTokenRepo_IsRevoked svc s0' tok = Ok true) ->
   forall resp s1 tr1,
     RefreshTokens svc tok (s, tr) = (Ok resp, (s1, tr1)) ->
     fst (RefreshTokens svc tok (s1, tr1)) = Err ErrTokenRevoked).
Proof.
  intros Hv.
  unfold RefreshTokens, bind, read_call, write_call, ret, throw.
  cbn beta iota. rewrite Hv.
  split; [|split].
  - intros Hr. rewrite Hr. cbn beta iota. now rewrite <- app_assoc.
  - intros Hr. rewrite Hr. cbn beta iota. split.
    + intros e He. rewrite He. now rewrite <- !app_assoc.
    + intros s' Hs. rewrite Hs. cbn beta iota.
      destruct (tokenGen_GenerateAccessToken svc uid) as [a|e];
        [destruct (tokenGen_GenerateRefreshToken svc uid) as [r|e]|].
      * eexists; exists [CGenerateAccessToken uid; CGenerateRefreshToken uid].
        rewrite <- !app_assoc. split; [reflexivity|].
        repeat (apply Forall_cons; [first [left; reflexivity | right; reflexivity]|]); constructor.
      * eexists; exists [CGenerateAccessToken uid; CGenerateRefreshToken uid].
        rewrite <- !app_assoc. split; [reflexivity|].
        repeat (apply Forall_cons; [first [left; reflexivity | right; reflexivity]|]); constructor.
      * eexists; exists [CGenerateAccessToken uid].
        rewrite <- !app_assoc. split; [reflexivity|].
        repeat (apply Forall_cons; [first [left; reflexivity | right; reflexivity]|]); constructor.
  - intros Hstore resp s1 tr1 Hrun.
    destruct (refreshTokenRepo_IsRevoked svc s tok) as [[|]|e] eqn:Hr;
      cbn beta iota in Hrun; try discriminate.
    destruct (refreshTokenRepo_Revoke svc s tok) as [s'|e] eqn:Hs;
      cbn beta iota in Hrun; [|discriminate].
    destruct (tokenGen_GenerateAccessToken svc uid);
      [destruct (tokenGen_GenerateRefreshToken svc uid)|];
      cbn beta iota in Hrun; try discriminate.
    injection Hrun as _ <- _.
    cbn beta iota. rewrite ?Hv. cbn beta iota.
    rewrite (Hstore s s' Hs). reflexivity.
Qed.

Lemma RefreshTokens_rotation_witness :
  tokenValidator_ValidateRefreshToken service "refresh.u1" = Ok "u1" /\
  ((refreshTokenRepo_IsRevoked service (mkState [] [] []) "refresh.u1" = Ok true ->
    RefreshTokens service "refresh.u1" (mkState [] [] [], [])
    = (Err ErrTokenRevoked,
       (mkState [] [] [], [] ++ [CValidateRefreshToken "refresh.u1"; CIsRevoked "refresh.u1"]))) /\
   (refreshTokenRepo_IsRevoked service (mkState [] [] []) "refresh.u1" = Ok false ->
    (forall e, refreshTokenRepo_Revoke service (mkState [] [] []) "refresh.u1" = Err e ->
       RefreshTokens service "refresh.u1" (mkState [] [] [], [])
       = (Err (Wrapped "failed to revoke old token" e),
          (mkState [] [] [], [] ++ [CValidateRefreshToken "refresh.u1";
                                   CIsRevoked "refresh.u1"; CRevoke "refresh.u1"]))) /\
    (forall s', refreshTokenRepo_Revoke service (mkState [] [] []) "refresh.u1" = Ok s' ->
       exists r rest,
         RefreshTokens service "refresh.u1" (mkState [] [] [], [])
         = (r, (s', [] ++ [CValidateRefreshToken "refresh.u1"; CIsRevoked "refresh.u1";
                           CRevoke "refresh.u1"] ++ rest)) /\
         Forall (fun c => c = CGenerateAccessToken "u1" \/ c = CGenerateRefreshToken "u1")
           rest)) /\
   ((forall s0 s0', refreshTokenRepo_Revoke service s0 "refresh.u1" = Ok s0' ->
                    refreshTokenRepo_IsRevoked service s0' "refresh.u1" = Ok true) ->
    forall resp s1 tr1,
      RefreshTokens service "refresh.u1" (mkState [] [] [], []) = (Ok resp, (s1, tr1)) ->
      fst (RefreshTokens service "refresh.u1" (s1, tr1)) = Err ErrTokenRevoked)).
Proof.
  split; [reflexivity|].
  apply (RefreshTokens_rotation service (mkState [] [] []) [] "refresh.u1" "u1").
  reflexivity.
Defined.

(** C3 (code bug). [Login] with an unknown email returns at once after the
    lookup: no password comparison is made, whereas a wrong password for a
    known email costs one comparison. The two answers agree, the work done
    does not; [TestLogin_NonExistentEmail] expects a comparison against a
    dummy hash. *)
Theorem Login_unknown_email_skips_compare :
  let st := mkState [mkUser "user-123" "user@example.com" "testuser" "hashed_password" 0]
              [] [] in
  Login service "nonexistent@example.com" "any_password" (st, [])
  = (Err ErrInvalidCredentials, (st, [CFindByEmail "nonexistent@example.com"])) /\
  Login service "user@example.com" "wrong_password" (st, [])
  = (Err ErrInvalidCredentials,
     (st, [CFindByEmail "user@example.com"; CCompare "hashed_password" "wrong_password"])).
Proof. split; reflexivity. Qed.

(** C5 (code bug). [validatePassword] checks the length only: a password of
    eight or more characters with no digit ("OnlyLetters") or no letter
    ("12345678") passes, and [Register] creates the user, where
    [TestRegister_PasswordNoNumbers] and [TestRegister_PasswordNoLetters]
    expect [ErrPasswordTooWeak]. *)
Theorem Register_accepts_weak_passwords :
  let st := mkState [] [mkInvite "VALID_CODE" 10 0 1000 "community-123" "creator-456"] [] in
  validatePassword "OnlyLetters" = None /\
  validatePassword "12345678" = None /\
  fst (Register service 0 "user-1" "newuser@example.com" "OnlyLetters" "newuser"
         "VALID_CODE" (st, []))
  = Ok (mkUser "user-1" "newuser@example.com" "newuser" "hashed_OnlyLetters" 0) /\
  fst (Register service 0 "user-1" "newuser@example.com" "12345678" "newuser"
         "VALID_CODE" (st, []))
  = Ok (mkUser "user-1" "newuser@example.com" "newuser" "hashed_12345678" 0).
Proof. repeat split; vm_compute; reflexivity. Qed.

(** C9 (code bug). When the user store's [FindByEmail] and [FindByHandle]
    fail (store unreachable for reads), [Register] treats the email and the
    handle as free and creates the user: here a second account with an email
    and a handle that are already taken. *)
Theorem Register_masks_user_store_failures :
  let u0 := mkUser "user-0" "newuser@example.com" "newuser" "hashed_other123" 0 in
  let u1 := mkUser "user-1" "newuser@example.com" "newuser" "hashed_secret123" 0 in
  let inv := mkInvite "VALID_CODE" 10 0 1000 "community-123" "creator-456" in
  Register service_user_reads_failing 0 "user-1" "newuser@example.com" "secret123"
    "newuser" "VALID_CODE" (mkState [u0] [inv] [], [])
  = (Ok u1,
     (mkState [u1; u0] [mkInvite "VALID_CODE" 10 1 1000 "community-123" "creator-456"] [],
      [CFindByCode "VALID_CODE"; CFindByEmail "newuser@example.com";
       CFindByHandle "newuser"; CHash "secret123"; CCreate u1;
       CIncrementUsage "VALID_CODE"])).
Proof. vm_compute. reflexivity. Qed.

End IdentityClaims.

Module ReputationFacts.
Import Reputation InMemory.
Local Open Scope string_scope.

(** The [part_009] ledger, over the in-memory repository: for any event
    validation that accepts the event and a caller other than the target,
    recording a triple with a non-empty reference twice succeeds once, then
    fails with [ErrDuplicateEvent] leaving the store unchanged, so the
    points count once. *)
Lemma RecordReputationEvent_rejects_duplicate
    (ValidateReputationEvent : string -> Z -> option error) moderator now1 now2
    callerID targetUserID eventType points refID :
  String.eqb callerID targetUserID = false ->
  ValidateReputationEvent eventType points = None ->
  refID <> "" ->
  let '(e1, s1) := RecordReputationEvent rep_repo ValidateReputationEvent moderator now1
                     callerID targetUserID eventType points refID rep_empty in
  let '(e2, s2) := RecordReputationEvent rep_repo ValidateReputationEvent moderator now2
                     callerID targetUserID eventType points refID s1 in
  e1 = None /\ e2 = Some ErrDuplicateEvent /\ s2 = s1 /\
  GetReputation rep_repo s2 targetUserID = Ok (wrap64 points).
Proof.
  intros Hc Hv Hr.
  assert (Hr' : String.eqb refID "" = false) by (apply String.eqb_neq; exact Hr).
  unfold RecordReputationEvent. rewrite Hc, Hv, Hr'. cbn -[wrap64].
  rewrite !String.eqb_refl. cbn -[wrap64].
  rewrite String.eqb_refl. repeat split.
Qed.

End ReputationFacts.

Module ReputationClaims.
Import Reputation InMemory.
Local Open Scope string_scope.

(** C6 (code bug). The [RecordReputationEvent] of [part_010] records the
    same (user, event type, reference) triple twice: both calls succeed and
    the points are credited twice, where the version of [part_009] refuses
    the second with [ErrDuplicateEvent]. *)
Theorem RecordReputationEvent_v1_credits_twice :
  let '(e1, s1) := RecordReputationEvent_v1 rep_repo 0 "target-user" "message_posted" 3
                     "message-456" rep_empty in
  let '(e2, s2) := RecordReputationEvent_v1 rep_repo 1 "target-user" "message_posted" 3
                     "message-456" s1 in
  e1 = None /\ e2 = None /\
  GetReputation rep_repo s2 "target-user" = Ok 6 /\ length (events s2) = 2%nat.
Proof. vm_compute. repeat split. Qed.

End ReputationClaims.

Module RateLimitRunFacts.
Import RateLimit RateLimitRuns GoIntFacts RateLimitFacts.

(** A call on a present key whose last check is not later than [now]: the
    elapsed time saturates at [int_max], and nothing overflows. *)
Lemma Allow_present_sat (rl : RateLimiter) key b now :
  buckets rl key = Some b ->
  0 < interval rl -> lastCheck b <= now ->
  0 <= rate rl -> 0 <= tokens b ->
  tokens b + int_max / interval rl * rate rl <= int_max ->
  let e := Z.min (now - lastCheck b) int_max in
  let t := Z.min (tokens b + e / interval rl * rate rl) (capacity rl) in
  Allow rl key now
  = Some (t >? 0, with_buckets rl (map_set (buckets rl) key
                    (mkBucket (if t >? 0 then t - 1 else t) now))).
Proof.
  intros Hb Hi Hl Hr Ht Hmax e t.
  unfold Allow; rewrite Hb.
  assert (He : sub_sat now (lastCheck b) = e)
    by (unfold sub_sat, e, int_min, int_max; lia).
  rewrite He.
  assert (He0 : 0 <= e <= int_max) by (unfold e, int_max; lia).
  unfold div64.
  replace (interval rl =? 0) with false by (symmetry; apply Z.eqb_neq; lia).
  rewrite Z.quot_div_nonneg by lia.
  assert (Hq : 0 <= e / interval rl <= int_max / interval rl).
  { split; [apply Z.div_pos; lia | apply Z.div_le_mono; lia]. }
  assert (Hq2 : int_max / interval rl <= int_max) by (apply Z.div_le_upper_bound; unfold int_max in *; nia).
  assert (Hqr : e / interval rl * rate rl <= int_max / interval rl * rate rl) by nia.
  assert (Hqr0 : 0 <= e / interval rl * rate rl) by nia.
  rewrite (wrap64_id (e / interval rl)) by (unfold int_min, int_max in *; lia).
  rewrite (wrap64_id (e / interval rl * rate rl)) by (unfold int_min, int_max in *; lia).
  rewrite (wrap64_id (tokens b + e / interval rl * rate rl))
    by (unfold int_min, int_max in *; lia).
  subst t.
  destruct (tokens b + e / interval rl * rate rl >? capacity rl) eqn:E.
  - apply Z.gtb_lt in E. rewrite Z.min_r by lia.
    now destruct (capacity rl >? 0).
  - rewrite Z.gtb_ltb, Z.ltb_ge in E. rewrite Z.min_l by lia.
    now destruct (_ >? 0).
Qed.

(** The invariant of a limiter built by [NewRateLimiter r i]: every bucket
    holds between 0 and [2r] tokens and was last checked by [t]. *)
Definition limiter_inv (r i : Z) (rl : RateLimiter) (t : Z) : Prop :=
  rate rl = r /\ interval rl = i /\ capacity rl = 2 * r /\
  forall k b, buckets rl k = Some b -> 0 <= tokens b <= 2 * r /\ lastCheck b <= t.

Lemma limiter_inv_step r i rl t key now :
  1 <= r -> 0 < i -> 2 * r + int_max / i * r <= int_max ->
  limiter_inv r i rl t -> t <= now ->
  exists ok rl', Allow rl key now = Some (ok, rl') /\ limiter_inv r i rl' now.
Proof.
  intros Hr Hi Hmax (Hrate & Hint & Hcap & Hb) Ht.
  destruct (buckets rl key) as [b|] eqn:Ek.
  - destruct (Hb key b Ek) as [Htok Hlc].
    rewrite (Allow_present_sat rl key b now Ek) by (rewrite ?Hint, ?Hrate; lia).
    set (e := Z.min (now - lastCheck b) int_max).
    assert (He : 0 <= e) by (unfold e, int_max; lia).
    assert (Hadd : 0 <= e / interval rl * rate rl)
      by (rewrite Hint, Hrate; apply Z.mul_nonneg_nonneg; [apply Z.div_pos|]; lia).
    set (t2 := Z.min (tokens b + e / interval rl * rate rl) (capacity rl)).
    assert (Ht2 : 0 <= t2 <= 2 * r) by (unfold t2; rewrite Hcap; lia).
    eexists; eexists; split; [reflexivity|].
    unfold limiter_inv; cbn [rate interval capacity buckets with_buckets].
    split; [auto|split; [auto|split; [auto|]]].
    intros k0 bk Hk. unfold map_set in Hk.
    destruct (String.eqb k0 key).
    + injection Hk as <-; cbn [tokens lastCheck].
      destruct (t2 >? 0) eqn:Hp; [apply Z.gtb_lt in Hp|]; lia.
    + destruct (Hb k0 bk Hk); lia.
  - rewrite (Allow_fresh rl key now Ek).
    eexists; eexists; split; [reflexivity|].
    unfold limiter_inv; cbn [rate interval capacity buckets with_buckets].
    split; [auto|split; [auto|split; [auto|]]].
    intros k0 bk Hk. unfold map_set in Hk.
    destruct (String.eqb k0 key).
    + injection Hk as <-; cbn [tokens lastCheck].
      assert (0 <= int_max / i) by (apply Z.div_pos; unfold int_max; lia).
      rewrite Hcap, wrap64_id by (unfold int_min, int_max in *; nia).
      lia.
    + destruct (Hb k0 bk Hk); lia.
Qed.

Lemma limiter_inv_seq r i calls :
  1 <= r -> 0 < i -> 2 * r + int_max / i * r <= int_max ->
  forall rl t, limiter_inv r i rl t -> nondecreasing t calls = true ->
  exists bs rl', allow_seq rl calls = Some (bs, rl') /\ length bs = length calls
                 /\ exists t', limiter_inv r i rl' t'.
Proof.
  intros Hr Hi Hmax; induction calls as [|[key now] rest IH]; intros rl t Hinv Hnd.
  - exists [], rl; repeat split; eauto.
  - cbn [nondecreasing] in Hnd; apply andb_true_iff in Hnd as [Hle Hnd].
    apply Z.leb_le in Hle.
    destruct (limiter_inv_step r i rl t key now Hr Hi Hmax Hinv Hle) as (ok & rl1 & HA & Hinv1).
    destruct (IH rl1 now Hinv1 Hnd) as (bs & rl2 & Hs & Hlen & Hinv2).
    exists (ok :: bs), rl2; cbn [allow_seq]; rewrite HA, Hs; repeat split; auto.
    simpl; congruence.
Qed.


Lemma limiter_inv_later r i rl t t' :
  limiter_inv r i rl t -> t <= t' -> limiter_inv r i rl t'.
Proof.
  intros (H1 & H2 & H3 & Hb) Hle; repeat (split; [assumption|]).
  intros k b Hk; destruct (Hb k b Hk); lia.
Qed.

Lemma nondecreasing_app_last t k tn calls :
  nondecreasing t (calls ++ [(k, tn)]) = true ->
  nondecreasing t calls = true /\ t <= tn.
Proof.
  revert t; induction calls as [|[k1 t1] rest IH]; intros t H; cbn in H.
  - apply andb_true_iff in H as [H _]; apply Z.leb_le in H; auto.
  - apply andb_true_iff in H as [Hle H]; apply Z.leb_le in Hle.
    destruct (IH t1 H) as [Hn Ht]; cbn; rewrite Hn, andb_true_r.
    split; [apply Z.leb_le|]; lia.
Qed.

Lemma limiter_inv_seq_last r i calls k tn :
  1 <= r -> 0 < i -> 2 * r + int_max / i * r <= int_max ->
  forall rl t bs rl', limiter_inv r i rl t ->
  nondecreasing t (calls ++ [(k, tn)]) = true ->
  allow_seq rl calls = Some (bs, rl') -> limiter_inv r i rl' tn.
Proof.
  intros Hr Hi Hmax; induction calls as [|[key now] rest IH];
    intros rl t bs rl' Hinv Hnd Hs.
  - cbn in Hs; injection Hs as <- <-.
    apply nondecreasing_app_last in Hnd as [_ Hle].
    exact (limiter_inv_later r i rl t tn Hinv Hle).
  - cbn [app nondecreasing] in Hnd; apply andb_true_iff in Hnd as [Hle Hnd].
    apply Z.leb_le in Hle.
    destruct (limiter_inv_step r i rl t key now Hr Hi Hmax Hinv Hle) as (ok & rl1 & HA & Hinv1).
    cbn [allow_seq] in Hs; rewrite HA in Hs.
    destruct (allow_seq rl1 rest) as [[bs1 rl2]|] eqn:Hs1; [|discriminate].
    injection Hs as _ <-.
    exact (IH rl1 now bs1 rl2 Hinv1 Hnd Hs1).
Qed.

(** A denied call leaves the key's bucket empty, checked at [now]. *)
Lemma Allow_denied_bucket r i rl t key now rl1 :
  1 <= r -> 0 < i -> 2 * r + int_max / i * r <= int_max ->
  limiter_inv r i rl t -> t <= now ->
  Allow rl key now = Some (false, rl1) ->
  buckets rl1 key = Some (mkBucket 0 now) /\ limiter_inv r i rl1 now.
Proof.
  intros Hr Hi Hmax Hinv Ht HA.
  destruct (limiter_inv_step r i rl t key now Hr Hi Hmax Hinv Ht) as (ok & rl' & HA' & Hinv').
  rewrite HA in HA'; injection HA' as <- <-.
  split; [|exact Hinv'].
  destruct Hinv as (Hrate & Hint & Hcap & Hb).
  destruct (buckets rl key) as [b|] eqn:Ek.
  - destruct (Hb key b Ek) as [Htok Hlc].
    rewrite (Allow_present_sat rl key b now Ek) in HA by (rewrite ?Hint, ?Hrate; lia).
    set (e := Z.min (now - lastCheck b) int_max) in HA.
    set (t2 := Z.min (tokens b + e / interval rl * rate rl) (capacity rl)) in HA.
    assert (He : 0 <= e) by (unfold e, int_max; lia).
    assert (Hadd : 0 <= e / interval rl * rate rl)
      by (rewrite Hint, Hrate; apply Z.mul_nonneg_nonneg; [apply Z.div_pos|]; lia).
    assert (Ht2 : 0 <= t2) by (unfold t2; rewrite Hcap; lia).
    destruct (t2 >? 0) eqn:Hp; [discriminate|].
    injection HA as <-; cbn [buckets with_buckets]; unfold map_set.
    rewrite String.eqb_refl. rewrite Z.gtb_ltb, Z.ltb_ge in Hp.
    do 2 f_equal; lia.
  - rewrite (Allow_fresh rl key now Ek) in HA; discriminate.
Qed.

End RateLimitRunFacts.

Module RateLimitExtras.
Import RateLimit RateLimitRuns GoIntFacts RateLimitFacts RateLimitRunFacts.

(** Extra: for a limiter from [NewRateLimiter r i] with [1 <= r], a positive
    interval and [2r + (int_max / i) * r <= int_max], any sequence of
    [Allow] calls at non-decreasing instants never panics, answers every
    call, and leaves every bucket holding between 0 and [2r] tokens. *)
Theorem allow_seq_tokens_in_range (r i : Z) (calls : list (string * Z)) (t0 : Z) :
  1 <= r -> 0 < i -> 2 * r + int_max / i * r <= int_max ->
  nondecreasing t0 calls = true ->
  exists bs rl', allow_seq (NewRateLimiter r i) calls = Some (bs, rl')
                 /\ length bs = length calls
                 /\ forall k b, buckets rl' k = Some b -> 0 <= tokens b <= 2 * r.
Proof.
  intros Hr Hi Hmax Hnd.
  assert (Hinv : limiter_inv r i (NewRateLimiter r i) t0).
  { unfold limiter_inv, NewRateLimiter; cbn [rate interval capacity buckets].
    repeat split; try discriminate.
    rewrite wrap64_id; [lia|].
    assert (0 <= int_max / i) by (apply Z.div_pos; unfold int_max; lia).
    unfold int_min, int_max in *; nia. }
  destruct (limiter_inv_seq r i calls Hr Hi Hmax _ _ Hinv Hnd)
    as (bs & rl' & Hs & Hlen & t' & (_ & _ & _ & Hb)).
  exists bs, rl'; split; [exact Hs|split; [exact Hlen|]].
  intros k b Hk; apply (Hb k b Hk).
Qed.

Lemma allow_seq_tokens_in_range_witness :
  (1 <= 5 /\ 0 < Hour /\ 2 * 5 + int_max / Hour * 5 <= int_max
   /\ nondecreasing 0 [("a", 0); ("a", 0); ("b", Minute); ("a", Hour)]%string = true)
  /\ exists bs rl',
       allow_seq (NewRateLimiter 5 Hour) [("a", 0); ("a", 0); ("b", Minute); ("a", Hour)]%string
       = Some (bs, rl')
       /\ length bs = length [("a", 0); ("a", 0); ("b", Minute); ("a", Hour)]%string
       /\ forall k b, buckets rl' k = Some b -> 0 <= tokens b <= 2 * 5.
Proof.
  assert (H : 1 <= 5 /\ 0 < Hour /\ 2 * 5 + int_max / Hour * 5 <= int_max
              /\ nondecreasing 0 [("a", 0); ("a", 0); ("b", Minute); ("a", Hour)]%string = true)
    by (split; [lia|split; [vm_compute; reflexivity|split; [vm_compute; discriminate|reflexivity]]]).
  split; [exact H|].
  destruct H as (H1 & H2 & H3 & H4).
  exact (allow_seq_tokens_in_range 5 Hour _ 0 H1 H2 H3 H4).
Defined.



(** Extra: in a limiter from [NewRateLimiter r i] (same conditions, and
    [i <= int_max]), after any run of calls, a key denied at [now] is
    admitted by its next call at any instant [now' >= now + i]. *)
Theorem Allow_denied_recovers (r i : Z) (calls : list (string * Z)) (t0 : Z)
    (bs : list bool) (rl rl1 : RateLimiter) (key : string) (now now' : Z) :
  1 <= r -> 0 < i <= int_max -> 2 * r + int_max / i * r <= int_max ->
  nondecreasing t0 (calls ++ [(key, now)]) = true ->
  allow_seq (NewRateLimiter r i) calls = Some (bs, rl) ->
  Allow rl key now = Some (false, rl1) ->
  now + i <= now' ->
  exists rl2, Allow rl1 key now' = Some (true, rl2).
Proof.
  intros Hr [Hi Hi'] Hmax Hnd Hs HA Hnow.
  assert (Hinv0 : limiter_inv r i (NewRateLimiter r i) t0).
  { unfold limiter_inv, NewRateLimiter; cbn [rate interval capacity buckets].
    split; [reflexivity|split; [reflexivity|split; [|discriminate]]].
    assert (0 <= int_max / i) by (apply Z.div_pos; unfold int_max; lia).
    rewrite wrap64_id; [lia|]; unfold int_min, int_max in *; nia. }
  pose proof (limiter_inv_seq_last r i calls key now Hr Hi Hmax _ _ _ _ Hinv0 Hnd Hs) as Hinv.
  destruct (Allow_denied_bucket r i rl now key now rl1 Hr Hi Hmax Hinv (Z.le_refl _) HA)
    as [Hb1 Hinv1].
  destruct Hinv1 as (Hrate & Hint & Hcap & _).
  rewrite (Allow_present_sat rl1 key _ now' Hb1) by (cbn [tokens lastCheck]; rewrite ?Hint, ?Hrate; lia).
  cbn [tokens lastCheck].
  set (e := Z.min (now' - now) int_max).
  assert (He : i <= e) by (unfold e; lia).
  assert (Hq : 1 <= e / interval rl1)
    by (rewrite Hint; apply Z.div_le_lower_bound; lia).
  rewrite Hcap, Hrate.
  replace (Z.min (0 + e / interval rl1 * r) (2 * r) >? 0) with true
    by (symmetry; apply Z.gtb_lt; nia).
  eexists; reflexivity.
Qed.

Lemma Allow_denied_recovers_witness :
  exists rl rl1,
    allow_seq (NewRateLimiter 1 Minute) [("a", 0); ("a", 0)]%string = Some ([true; true], rl)
    /\ Allow rl "a"%string 0 = Some (false, rl1)
    /\ exists rl2, Allow rl1 "a"%string Minute = Some (true, rl2).
Proof.
  eexists; eexists; split; [reflexivity|]; split; [reflexivity|].
  refine (Allow_denied_recovers 1 Minute [("a", 0); ("a", 0)]%string 0
            [true; true] _ _ "a"%string 0 Minute _ _ _ _ _ _ _).
  - lia.
  - split; [vm_compute; reflexivity|vm_compute; discriminate].
  - vm_compute; discriminate.
  - reflexivity.
  - reflexivity.
  - reflexivity.
  - lia.
Defined.

End RateLimitExtras.

Module GoStdFacts.
Import GoStd.

Lemma hget_hset_same h k v : hget (hset h k v) k = Some v.
Proof. unfold hget, hset; cbn; now rewrite String.eqb_refl. Qed.

Lemma hget_hdel_other h k k' : k' <> k -> hget (hdel h k) k' = hget h k'.
Proof.
  intros Hne; unfold hget, hdel; induction h as [|[a b] h IH]; cbn; auto.
  destruct (String.eqb a k) eqn:E; cbn.
  - apply String.eqb_eq in E; subst a.
    apply String.eqb_neq in Hne. rewrite String.eqb_sym, Hne. exact IH.
  - destruct (String.eqb a k'); auto.
Qed.

Lemma hget_hset_other h k k' v : k' <> k -> hget (hset h k v) k' = hget h k'.
Proof.
  intros Hne; unfold hset; unfold hget at 1; cbn.
  replace (String.eqb k k') with false by (symmetry; apply String.eqb_neq; congruence).
  apply hget_hdel_other; auto.
Qed.

(** Headers [http.Error] writes, whatever was set before. *)
Lemma http_Error_headers w e code :
  StatusCode (http_Error w e code) = code
  /\ hget (Headers (http_Error w e code)) "Content-Type"%string
     = Some "text/plain; charset=utf-8"%string
  /\ hget (Headers (http_Error w e code)) "X-Content-Type-Options"%string = Some "nosniff"%string
  /\ hget (Headers (http_Error w e code)) "Content-Length"%string = None
  /\ RespBody (http_Error w e code) = BodyText (e ++ newline).
Proof.
  unfold http_Error; cbn [StatusCode Headers RespBody].
  split; [reflexivity|]. split.
  { rewrite hget_hset_other by discriminate. apply hget_hset_same. }
  split; [apply hget_hset_same|]. split; [|reflexivity].
  rewrite !hget_hset_other by discriminate.
  unfold hget, hdel. induction w as [|[a b] w IH]; cbn; auto.
  destruct (String.eqb a "Content-Length") eqn:E; cbn; auto.
  rewrite E; exact IH.
Qed.

End GoStdFacts.

Module RouterFacts.
Import GoStd RateLimit RateLimitHTTP Router RateLimitFacts.

Lemma GetClientIP_xff (req : Request) (v : string) :
  Header_Get (ReqHeader req) "X-Forwarded-For"%string = v ->
  v <> EmptyString -> Identity.split_first ","%char v = None -> TrimSpace v = v ->
  GetClientIP req = v.
Proof.
  intros Hh Hne Hc Ht; unfold GetClientIP; rewrite Hh.
  replace (String.eqb v "") with false by (symmetry; apply String.eqb_neq; auto).
  cbn [negb]; rewrite Hc; exact Ht.
Qed.

End RouterFacts.

Module RouterExtras.
Import GoStd RateLimit RateLimitHTTP Router RateLimitFacts GoStdFacts RouterFacts.
Local Open Scope string_scope.

(** The X-Forwarded-For value of a request, as [GetClientIP] reads it. *)
Definition xff (rq : Request * Z) : string :=
  Header_Get (ReqHeader (fst rq)) "X-Forwarded-For".

(** Extra: [withRateLimit] keys its buckets on the client-supplied
    X-Forwarded-For header. Requests whose X-Forwarded-For values are
    pairwise distinct, non-empty, free of commas and of surrounding white
    space, and not yet keys of the limiter, are all passed to the wrapped
    handler, whatever their [RemoteAddr] and however many there are. *)
Theorem serve_all_distinct_xff_forwarded (rl : RateLimiter)
    (next : RespHeader -> Request -> Response) (w : RespHeader)
    (reqs : list (Request * Z)) :
  NoDup (map xff reqs) ->
  Forall (fun rq => xff rq <> EmptyString /\ Identity.split_first ","%char (xff rq) = None
                    /\ TrimSpace (xff rq) = xff rq /\ buckets rl (xff rq) = None) reqs ->
  exists rl', serve_all rl next w reqs = Some (map (fun rq => next w (fst rq)) reqs, rl').
Proof.
  revert rl; induction reqs as [|[req now] rest IH]; intros rl Hnd Hall.
  - exists rl; reflexivity.
  - inversion Hnd as [|? ? Hnotin Hnd']; subst.
    inversion Hall as [|? ? (Hne & Hc & Ht & Hb) Hall']; subst.
    cbn [serve_all]; unfold withRateLimit.
    rewrite (GetClientIP_xff req (xff (req, now)) eq_refl Hne Hc Ht).
    rewrite (Allow_fresh rl _ now Hb).
    set (rl1 := with_buckets rl _).
    destruct (IH rl1 Hnd') as [rl' Hs].
    + apply Forall_forall; intros rq Hin.
      rewrite Forall_forall in Hall'.
      destruct (Hall' rq Hin) as (H1 & H2 & H3 & H4); repeat split; auto.
      cbn [rl1 with_buckets buckets]; unfold map_set.
      destruct (String.eqb (xff rq) (xff (req, now))) eqn:E; [|exact H4].
      apply String.eqb_eq in E. exfalso; apply Hnotin.
      rewrite <- E. apply in_map; exact Hin.
    + exists rl'; rewrite Hs; reflexivity.
Qed.

Lemma serve_all_distinct_xff_forwarded_witness :
  (NoDup (map xff [(mkRequest (fun k => if String.eqb k "X-Forwarded-For" then ["1.1.1.1"] else []) "10.0.0.9:4000" [] "" false 0, 0);
      (mkRequest (fun k => if String.eqb k "X-Forwarded-For" then ["2.2.2.2"] else []) "10.0.0.9:4000" [] "" false 0, 0);
      (mkRequest (fun k => if String.eqb k "X-Forwarded-For" then ["3.3.3.3"] else []) "10.0.0.9:4000" [] "" false 0, 0)])
   /\ Forall (fun rq => xff rq <> EmptyString /\ Identity.split_first ","%char (xff rq) = None
                      /\ TrimSpace (xff rq) = xff rq /\ buckets LoginRateLimiter (xff rq) = None)
       [(mkRequest (fun k => if String.eqb k "X-Forwarded-For" then ["1.1.1.1"] else []) "10.0.0.9:4000" [] "" false 0, 0);
      (mkRequest (fun k => if String.eqb k "X-Forwarded-For" then ["2.2.2.2"] else []) "10.0.0.9:4000" [] "" false 0, 0);
      (mkRequest (fun k => if String.eqb k "X-Forwarded-For" then ["3.3.3.3"] else []) "10.0.0.9:4000" [] "" false 0, 0)])
  /\ exists rl', serve_all LoginRateLimiter (fun w0 r0 => mkResponse 200 w0 BodyEmpty) [] [(mkRequest (fun k => if String.eqb k "X-Forwarded-For" then ["1.1.1.1"] else []) "10.0.0.9:4000" [] "" false 0, 0);
      (mkRequest (fun k => if String.eqb k "X-Forwarded-For" then ["2.2.2.2"] else []) "10.0.0.9:4000" [] "" false 0, 0);
      (mkRequest (fun k => if String.eqb k "X-Forwarded-For" then ["3.3.3.3"] else []) "10.0.0.9:4000" [] "" false 0, 0)]
                = Some (map (fun rq => (fun w0 r0 => mkResponse 200 w0 BodyEmpty) [] (fst rq)) [(mkRequest (fun k => if String.eqb k "X-Forwarded-For" then ["1.1.1.1"] else []) "10.0.0.9:4000" [] "" false 0, 0);
      (mkRequest (fun k => if String.eqb k "X-Forwarded-For" then ["2.2.2.2"] else []) "10.0.0.9:4000" [] "" false 0, 0);
      (mkRequest (fun k => if String.eqb k "X-Forwarded-For" then ["3.3.3.3"] else []) "10.0.0.9:4000" [] "" false 0, 0)], rl').
Proof.
  assert (H1 : NoDup (map xff [(mkRequest (fun k => if String.eqb k "X-Forwarded-For" then ["1.1.1.1"] else []) "10.0.0.9:4000" [] "" false 0, 0);
      (mkRequest (fun k => if String.eqb k "X-Forwarded-For" then ["2.2.2.2"] else []) "10.0.0.9:4000" [] "" false 0, 0);
      (mkRequest (fun k => if String.eqb k "X-Forwarded-For" then ["3.3.3.3"] else []) "10.0.0.9:4000" [] "" false 0, 0)])).
  { cbn. repeat constructor; cbn; intuition discriminate. }
  assert (H2 : Forall (fun rq => xff rq <> EmptyString /\ Identity.split_first ","%char (xff rq) = None
                      /\ TrimSpace (xff rq) = xff rq /\ buckets LoginRateLimiter (xff rq) = None)
       [(mkRequest (fun k => if String.eqb k "X-Forwarded-For" then ["1.1.1.1"] else []) "10.0.0.9:4000" [] "" false 0, 0);
      (mkRequest (fun k => if String.eqb k "X-Forwarded-For" then ["2.2.2.2"] else []) "10.0.0.9:4000" [] "" false 0, 0);
      (mkRequest (fun k => if String.eqb k "X-Forwarded-For" then ["3.3.3.3"] else []) "10.0.0.9:4000" [] "" false 0, 0)]).
  { repeat constructor; discriminate. }
  split; [split; assumption|].
  exact (serve_all_distinct_xff_forwarded LoginRateLimiter (fun w0 r0 => mkResponse 200 w0 BodyEmpty) [] [(mkRequest (fun k => if String.eqb k "X-Forwarded-For" then ["1.1.1.1"] else []) "10.0.0.9:4000" [] "" false 0, 0);
      (mkRequest (fun k => if String.eqb k "X-Forwarded-For" then ["2.2.2.2"] else []) "10.0.0.9:4000" [] "" false 0, 0);
      (mkRequest (fun k => if String.eqb k "X-Forwarded-For" then ["3.3.3.3"] else []) "10.0.0.9:4000" [] "" false 0, 0)] H1 H2).
Defined.

(** Extra: when the limiter denies the client, [withRateLimit] answers 429
    with Retry-After 60 and without calling the wrapped handler, and the
    answer goes out as plain text: [http.Error] replaces the
    application/json content type set just before, adds nosniff, and the
    body is the JSON text followed by a newline. [RateLimitMiddleware]
    answers the same way with the body "Rate limit exceeded". *)
Theorem rate_limit_rejection_is_plain_text (rl rl' : RateLimiter)
    (next : RespHeader -> Request -> Response) (keyFunc : Request -> string)
    (w : RespHeader) (req : Request) (now : Z) :
  (Allow rl (GetClientIP req) now = Some (false, rl') ->
   exists resp, withRateLimit rl next w req now = Some (resp, rl')
   /\ StatusCode resp = 429
   /\ hget (Headers resp) "Content-Type" = Some "text/plain; charset=utf-8"
   /\ hget (Headers resp) "Retry-After" = Some "60"
   /\ hget (Headers resp) "X-Content-Type-Options" = Some "nosniff"
   /\ RespBody resp = BodyText (json_error "Rate limit exceeded" ++ newline))
  /\ (Allow rl (keyFunc req) now = Some (false, rl') ->
   exists resp, RateLimitMiddleware rl keyFunc next w req now = Some (resp, rl')
   /\ StatusCode resp = 429
   /\ hget (Headers resp) "Content-Type" = Some "text/plain; charset=utf-8"
   /\ hget (Headers resp) "Retry-After" = Some "60"
   /\ hget (Headers resp) "X-Content-Type-Options" = Some "nosniff"
   /\ RespBody resp = BodyText ("Rate limit exceeded" ++ newline)).
Proof.
  split; intros HA.
  - unfold withRateLimit; rewrite HA.
    eexists; split; [reflexivity|].
    destruct (http_Error_headers (hset (hset w "Content-Type" "application/json") "Retry-After" "60")
                (json_error "Rate limit exceeded") 429) as (H1 & H2 & H3 & _ & H5).
    repeat split; auto.
  - unfold RateLimitMiddleware; rewrite HA.
    eexists; split; [reflexivity|].
    destruct (http_Error_headers (hset w "Retry-After" "60") "Rate limit exceeded" 429)
      as (H1 & H2 & H3 & _ & H5).
    repeat split; auto.
Qed.

Lemma rate_limit_rejection_is_plain_text_witness :
  exists rl', Allow (with_buckets (NewRateLimiter 1 Minute) (map_set (buckets (NewRateLimiter 1 Minute)) "1.1.1.1" (mkBucket 0 0))) (GetClientIP (mkRequest (fun k => if String.eqb k "X-Forwarded-For" then ["1.1.1.1"] else []) "10.0.0.9:4000" [] "" false 0)) 0 = Some (false, rl')
  /\ exists resp, withRateLimit (with_buckets (NewRateLimiter 1 Minute) (map_set (buckets (NewRateLimiter 1 Minute)) "1.1.1.1" (mkBucket 0 0))) (fun w0 r0 => mkResponse 200 w0 BodyEmpty) [] (mkRequest (fun k => if String.eqb k "X-Forwarded-For" then ["1.1.1.1"] else []) "10.0.0.9:4000" [] "" false 0) 0 = Some (resp, rl')
   /\ StatusCode resp = 429
   /\ hget (Headers resp) "Content-Type" = Some "text/plain; charset=utf-8"
   /\ hget (Headers resp) "Retry-After" = Some "60"
   /\ hget (Headers resp) "X-Content-Type-Options" = Some "nosniff"
   /\ RespBody resp = BodyText (json_error "Rate limit exceeded" ++ newline).
Proof.
  eexists; split; [reflexivity|].
  apply (proj1 (rate_limit_rejection_is_plain_text (with_buckets (NewRateLimiter 1 Minute) (map_set (buckets (NewRateLimiter 1 Minute)) "1.1.1.1" (mkBucket 0 0))) _ (fun w0 r0 => mkResponse 200 w0 BodyEmpty) GetClientIP [] (mkRequest (fun k => if String.eqb k "X-Forwarded-For" then ["1.1.1.1"] else []) "10.0.0.9:4000" [] "" false 0) 0)).
  reflexivity.
Defined.

End RouterExtras.

Module TokenGenFacts.
Import JWT TokenGen.

Lemma Unix_add (now k : Z) : Unix (now + k * 10 ^ 9) = Unix now + k.
Proof. unfold Unix. rewrite Z.div_add by (apply Z.pow_nonzero; lia). reflexivity. Qed.

Lemma ValidateToken_tokenClaims jwt_Parse tok issuer uid d now jti :
  jwt_Parse tok = Parsed true (Some (tokenClaims issuer uid d now jti)) ->
  ValidateToken jwt_Parse tok
  = if String.eqb uid "" then VErr "invalid user_id claim"
    else if (Unix (now + d) =? 0) || (Unix now =? 0) then VPanic
    else VOk (mkClaims uid (Unix (now + d)) (Unix now) jti).
Proof.
  intros H; unfold ValidateToken, parseNumericDate; rewrite H; cbn.
  destruct (String.eqb uid ""); [reflexivity|].
  destruct (Unix (now + d) =? 0), (Unix now =? 0); reflexivity.
Qed.

(** Decidable equality of payloads. *)
Definition jvalue_eq_dec (a b : jvalue) : {a = b} + {a <> b}.
Proof. decide equality; first [apply string_dec | apply Z.eq_dec | apply bool_dec]. Defined.

Definition MapClaims_eq_dec (a b : MapClaims) : {a = b} + {a <> b}.
Proof.
  apply list_eq_dec; intros [k1 v1] [k2 v2].
  destruct (string_dec k1 k2), (jvalue_eq_dec v1 v2); subst;
    [left; reflexivity| right; congruence ..].
Defined.

End TokenGenFacts.

Module TokenGenExtras.
Import JWT TokenGen TokenGenFacts.
Local Open Scope string_scope.

(** Extra: when [jwt.Parse] gives back, as valid, the claims that
    [SignedString] signed, a token from [GenerateAccessToken] validates to
    the user's ID, its token ID, an issue time of [now] in Unix seconds and
    an expiry exactly 900 seconds later; a refresh token likewise with
    604800 seconds (7 days). A token generated for the empty user ID never
    validates: it is rejected with "invalid user_id claim". A token whose
    [iat] or [exp] is the Unix second 0 makes [ValidateToken] panic, since
    golang-jwt reads the date 0 as a nil date that [exp.Time] or
    [iat.Time] then dereferences. *)
Theorem generated_tokens_validate (SignedString : MapClaims -> result string)
    (jwt_Parse : string -> parse_result) (uid : string) (now : Z) (jti tok : string) :
  (forall c t, SignedString c = Ok t -> jwt_Parse t = Parsed true (Some c)) ->
  (GenerateAccessToken SignedString issuer uid now jti = Ok tok ->
   ValidateToken jwt_Parse tok
   = if String.eqb uid "" then VErr "invalid user_id claim"
     else if Z.eqb (Unix now + 900) 0 || Z.eqb (Unix now) 0 then VPanic
     else VOk (mkClaims uid (Unix now + 900) (Unix now) jti))
  /\ (GenerateRefreshToken SignedString issuer uid now jti = Ok tok ->
   ValidateToken jwt_Parse tok
   = if String.eqb uid "" then VErr "invalid user_id claim"
     else if Z.eqb (Unix now + 604800) 0 || Z.eqb (Unix now) 0 then VPanic
     else VOk (mkClaims uid (Unix now + 604800) (Unix now) jti)).
Proof.
  intros Hinv; split; intros Hg; apply Hinv in Hg;
    rewrite (ValidateToken_tokenClaims _ _ _ _ _ _ _ Hg).
  - replace (15 * RateLimit.Minute) with (900 * 10 ^ 9)
      by (unfold RateLimit.Minute; lia).
    now rewrite Unix_add.
  - replace (7 * 24 * RateLimit.Hour) with (604800 * 10 ^ 9)
      by (unfold RateLimit.Hour, RateLimit.Minute; lia).
    now rewrite Unix_add.
Qed.

Lemma generated_tokens_validate_witness :
  let target := tokenClaims issuer "u1" (15 * RateLimit.Minute) (1700000000 * 10 ^ 9) "j1" in
  let SignedString := fun c => if MapClaims_eq_dec c target then Ok "tok"
                               else Err (ErrExternal "other claims") in
  let jwt_Parse := fun t => if String.eqb t "tok" then Parsed true (Some target)
                            else ParseError false in
  (forall c t, SignedString c = Ok t -> jwt_Parse t = Parsed true (Some c))
  /\ GenerateAccessToken SignedString issuer "u1" (1700000000 * 10 ^ 9) "j1" = Ok "tok"
  /\ ValidateToken jwt_Parse "tok"
     = VOk (mkClaims "u1" (Unix (1700000000 * 10 ^ 9) + 900) (Unix (1700000000 * 10 ^ 9)) "j1").
Proof.
  intros target SignedString jwt_Parse.
  assert (Hinv : forall c t, SignedString c = Ok t -> jwt_Parse t = Parsed true (Some c)).
  { intros c t; unfold SignedString, jwt_Parse.
    destruct (MapClaims_eq_dec c target) as [->|]; [|discriminate].
    intros H; injection H as <-; reflexivity. }
  assert (Hg : GenerateAccessToken SignedString issuer "u1" (1700000000 * 10 ^ 9) "j1" = Ok "tok").
  { unfold GenerateAccessToken, generateTokenWithExpiry, SignedString.
    destruct (MapClaims_eq_dec _ target) as [_|n]; [reflexivity|].
    exfalso; apply n; reflexivity. }
  split; [exact Hinv|split; [exact Hg|]].
  exact (proj1 (generated_tokens_validate SignedString jwt_Parse "u1" (1700000000 * 10 ^ 9)
                  "j1" "tok" Hinv) Hg).
Defined.

End TokenGenExtras.

Module AuthFacts.
Import GoStd CtxKeys JWT AuthMW.
Local Open Scope string_scope.

Lemma ValidateToken_VOk_user jwt_Parse tok c :
  ValidateToken jwt_Parse tok = VOk c -> UserID c <> "".
Proof.
  unfold ValidateToken.
  destruct (jwt_Parse tok) as [[|]|[|] [claims|]]; try discriminate.
  destruct (lookup "user_id" claims) as [[u| | |]|]; try discriminate.
  destruct (String.eqb u "") eqn:Eu; [discriminate|].
  destruct (parseNumericDate claims "exp") as [[e|]|]; try discriminate;
  destruct (parseNumericDate claims "iat") as [[i|]|]; try discriminate.
  intros H; injection H as <-; cbn. apply String.eqb_neq; exact Eu.
Qed.

Lemma Value_string_WithValue_same ctx k v :
  Value_string (WithValue ctx k (CtxString v)) k = Some v.
Proof.
  unfold Value_string, WithValue; cbn.
  unfold ctxKey_eqb; rewrite !String.eqb_refl; reflexivity.
Qed.

Lemma Value_string_WithValue_other ctx k k' v :
  ctxKey_eqb k k' = false ->
  Value_string (WithValue ctx k v) k' = Value_string ctx k'.
Proof. intros H; unfold Value_string, WithValue; cbn; now rewrite H. Qed.

End AuthFacts.

Module AuthExtras.
Import GoStd CtxKeys JWT AuthMW AuthFacts.
Local Open Scope string_scope.

(** Extra: [AuthMiddleware] answers 401, leaving the state as it was, when
    the Authorization header does not start with "Bearer " (an absent
    header included) and when [ValidateToken] rejects the token. When it
    accepts the token, the wrapped handler runs on the same request whose
    context now gives, through [GetUserFromContext], the token's user ID,
    which is never empty. When [ValidateToken] panics (a signed token
    without a non-zero [exp] or [iat]), the request gets no response. *)
Theorem AuthMiddleware_outcomes {St} (jwt_Parse : string -> parse_result)
    (next : Handler St) (w : RespHeader) (r : Request) (s : St) :
  let h := Header_Get (ReqHeader r) "Authorization" in
  (HasPrefix h "Bearer " = false ->
   AuthMiddleware jwt_Parse next w r s = Some (WriteHeaderOnly w 401, s))
  /\ (forall msg, ValidateToken jwt_Parse (TrimPrefix h "Bearer ") = VErr msg ->
      AuthMiddleware jwt_Parse next w r s = Some (WriteHeaderOnly w 401, s))
  /\ (forall c, HasPrefix h "Bearer " = true ->
      ValidateToken jwt_Parse (TrimPrefix h "Bearer ") = VOk c ->
      UserID c <> ""
      /\ exists r', AuthMiddleware jwt_Parse next w r s = next w r' s
         /\ GetUserFromContext (ReqCtx r') = Some (UserID c)
         /\ ReqHeader r' = ReqHeader r /\ RemoteAddr r' = RemoteAddr r
         /\ PathCommunityID r' = PathCommunityID r)
  /\ (HasPrefix h "Bearer " = true ->
      ValidateToken jwt_Parse (TrimPrefix h "Bearer ") = VPanic ->
      AuthMiddleware jwt_Parse next w r s = None).
Proof.
  intros h; unfold AuthMiddleware; fold h.
  assert (Hne : HasPrefix h "Bearer " = true -> String.eqb h "" = false).
  { intros Hp; apply String.eqb_neq; intros E; rewrite E in Hp; discriminate. }
  split; [|split; [|split]].
  - intros Hp; rewrite Hp, orb_true_r; reflexivity.
  - intros msg Hv.
    destruct (String.eqb h "" || negb (HasPrefix h "Bearer ")); [reflexivity|].
    rewrite Hv; reflexivity.
  - intros c Hp Hv.
    assert (Hh : String.eqb h "" = false).
    { apply String.eqb_neq; intros E; rewrite E in Hp; discriminate. }
    rewrite Hh, Hp; cbn [orb negb]. rewrite Hv.
    split; [exact (ValidateToken_VOk_user _ _ _ Hv)|].
    eexists; split; [reflexivity|].
    cbn [ReqCtx ReqHeader RemoteAddr PathCommunityID WithContext].
    unfold GetUserFromContext; rewrite Value_string_WithValue_same.
    repeat split.
  - intros Hp Hv. rewrite (Hne Hp), Hp; cbn [orb negb]. rewrite Hv; reflexivity.
Qed.

Lemma AuthMiddleware_outcomes_witness :
  let r := mkRequest (fun k => if String.eqb k "Authorization" then ["Bearer tok"] else [])
             "10.0.0.9:4000" [] "" false 0 in
  let jwt_Parse := fun _ : string => Parsed true (Some [("user_id", JString "u1");
                                                         ("exp", JNumber 2000000000);
                                                         ("iat", JNumber 1700000000)]) in
  let next : Handler unit := fun w0 r0 s0 => Some (WriteHeaderOnly w0 200, s0) in
  HasPrefix (Header_Get (ReqHeader r) "Authorization") "Bearer " = true
  /\ ValidateToken jwt_Parse (TrimPrefix (Header_Get (ReqHeader r) "Authorization") "Bearer ")
     = VOk (mkClaims "u1" 2000000000 1700000000 "")
  /\ "u1" <> ""
  /\ exists r', AuthMiddleware jwt_Parse next [] r tt = next [] r' tt
     /\ GetUserFromContext (ReqCtx r') = Some "u1"
     /\ ReqHeader r' = ReqHeader r /\ RemoteAddr r' = RemoteAddr r
     /\ PathCommunityID r' = PathCommunityID r.
Proof.
  intros r jwt_Parse next.
  assert (Hp : HasPrefix (Header_Get (ReqHeader r) "Authorization") "Bearer " = true)
    by reflexivity.
  assert (Hv : ValidateToken jwt_Parse (TrimPrefix (Header_Get (ReqHeader r) "Authorization") "Bearer ")
               = VOk (mkClaims "u1" 2000000000 1700000000 "")) by reflexivity.
  split; [exact Hp|split; [exact Hv|]].
  exact (proj1 (proj2 (proj2 (AuthMiddleware_outcomes jwt_Parse next [] r tt))) _ Hp Hv).
Defined.

End AuthExtras.

Module InviteRouteExtras.
Import GoStd CtxKeys JWT AuthMW Router Identity InviteCreate InviteHandlerM AuthFacts.
Local Open Scope string_scope.

(** Extra: on the invite-creation route (withAuth, withCommunity,
    withMembership, then the invite handler), a request whose bearer token
    validates never gets 401: the 401 branches of [withMembership] and of
    the handler cannot be reached. When it gets 201, the invite service was
    called with the community ID of the path and the token's user ID as
    creator. *)
Theorem inviteRoute_authenticated_no_401 {St}
    (jwt_Parse : string -> parse_result)
    (membershipChecker : option (Context -> string -> string -> result bool))
    (svc : string -> string -> InviteOptions -> result Invite)
    (baseURL : string) (now : Z) (decode : option CreateInviteRequest)
    (w : RespHeader) (r : Request) (s : St) (c : Claims) (resp : Response) (s' : St) :
  HasPrefix (Header_Get (ReqHeader r) "Authorization") "Bearer " = true ->
  ValidateToken jwt_Parse (TrimPrefix (Header_Get (ReqHeader r) "Authorization") "Bearer ")
    = VOk c ->
  inviteRoute jwt_Parse membershipChecker (CreateInviteHandler svc baseURL now decode) w r s
    = Some (resp, s') ->
  StatusCode resp <> 401
  /\ (StatusCode resp = 201 ->
      exists opts invite, svc (PathCommunityID r) (UserID c) opts = Ok invite).
Proof.
  intros Hp Hv Hr.
  pose proof (ValidateToken_VOk_user _ _ _ Hv) as Hu.
  apply String.eqb_neq in Hu.
  unfold inviteRoute, withAuth in Hr.
  assert (Hh : String.eqb (Header_Get (ReqHeader r) "Authorization") "" = false).
  { apply String.eqb_neq; intros E; rewrite E in Hp; discriminate. }
  rewrite Hh, Hp, Hv in Hr; cbn [orb negb] in Hr.
  unfold withCommunity in Hr; cbn [PathCommunityID WithContext] in Hr.
  destruct (String.eqb (PathCommunityID r) "") eqn:Ec.
  { injection Hr as <- <-; cbn; split; [discriminate|discriminate]. }
  unfold withMembership in Hr; cbn [ReqCtx WithContext] in Hr.
  rewrite Value_string_WithValue_other, Value_string_WithValue_same in Hr by reflexivity.
  rewrite Hu in Hr.
  rewrite Value_string_WithValue_same, Ec in Hr.
  assert (Hnext : CreateInviteHandler svc baseURL now decode w
                    (WithContext (WithContext r (WithValue (ReqCtx r) UserIDKey (CtxString (UserID c))))
                       (WithValue (ReqCtx (WithContext r (WithValue (ReqCtx r) UserIDKey
                                                            (CtxString (UserID c)))))
                          CommunityIDKey (CtxString (PathCommunityID r)))) s = Some (resp, s') ->
                  StatusCode resp <> 401
                  /\ (StatusCode resp = 201 ->
                      exists opts invite, svc (PathCommunityID r) (UserID c) opts = Ok invite)).
  { unfold CreateInviteHandler, GetUserFromContext; cbn [ReqCtx WithContext].
    rewrite Value_string_WithValue_other, Value_string_WithValue_same by reflexivity.
    rewrite Value_string_WithValue_same, Ec.
    cbn [HasBody ContentLength WithContext].
    destruct (HasBody r && (ContentLength r >? 0));
      [destruct decode as [req|];
       [|intros H; injection H as <- <-; cbn; split; discriminate]|].
    all: cbv zeta.
    all: destruct (svc (PathCommunityID r) (UserID c) _) as [inv|e] eqn:Es;
      intros H; injection H as <- <-; cbn; split; try discriminate;
      intros _; eexists; eexists; exact Es. }
  destruct membershipChecker as [IsMember|]; [|exact (Hnext Hr)].
  destruct (IsMember _ _ _) as [[|]|e].
  - exact (Hnext Hr).
  - injection Hr as <- <-; cbn; split; discriminate.
  - injection Hr as <- <-; cbn; split; discriminate.
Qed.

Lemma inviteRoute_authenticated_no_401_witness :
  let r := mkRequest (fun k => if String.eqb k "Authorization" then ["Bearer tok"] else [])
             "10.0.0.9:4000" [] "c1" false 0 in
  let jwt_Parse := fun _ : string => Parsed true (Some [("user_id", JString "u1");
                                                         ("exp", JNumber 2000000000);
                                                         ("iat", JNumber 1700000000)]) in
  let svc := CreateInvite 0 (Ok (fun _ => "A"%char)) in
  exists resp, inviteRoute jwt_Parse (Some (fun _ _ _ => Ok true))
                 (CreateInviteHandler svc "https://x" 0 None) [] r tt = Some (resp, tt)
  /\ StatusCode resp <> 401
  /\ (StatusCode resp = 201 ->
      exists opts invite, svc (PathCommunityID r) "u1" opts = Ok invite).
Proof.
  intros r jwt_Parse svc.
  eexists; split; [reflexivity|].
  exact (inviteRoute_authenticated_no_401 jwt_Parse (Some (fun _ _ _ => Ok true)) svc
           "https://x" 0 None [] r tt (mkClaims "u1" 2000000000 1700000000 "") _ tt
           eq_refl eq_refl eq_refl).
Defined.

End InviteRouteExtras.

Module InviteHandlerFacts.
Import GoInt GoIntFacts.

Lemma wrap64_over (z : Z) : int_max < z <= int_max + 2 ^ 64 -> wrap64 z = z - 2 ^ 64.
Proof.
  unfold wrap64, int_max; intros H.
  replace (z + 2 ^ 63) with ((z + 2 ^ 63 - 2 ^ 64) + 1 * 2 ^ 64) by ring.
  rewrite Z.mod_add by lia. rewrite Z.mod_small by lia. lia.
Qed.

End InviteHandlerFacts.

Module InviteHandlerExtras.
Import GoStd CtxKeys AuthMW Identity InviteCreate InviteHandlerM GoInt GoIntFacts
  InviteHandlerFacts.
Local Open Scope string_scope.

(** Extra: for an authenticated request with a community ID and a body
    asking for [d] days, the invite handler over [CreateInvite] answers 201
    with the code, its URL and an expiry [e] where: [e] is 7 days after
    [now] when [d <= 0]; [d] days after [now] when [1 <= d <= 106751]; and,
    because [time.Duration(d) * 24 * time.Hour] overflows int64, a time
    before [now] when [106752 <= d <= 213503] (the invite is born
    expired). *)
Theorem CreateInviteHandler_expiry {St} (now : Z) (rand_Read : result (nat -> ascii))
    (baseURL : string) (d maxUses : Z) (w : RespHeader) (r : Request) (s : St)
    (uid cid code : string) :
  GetUserFromContext (ReqCtx r) = Some uid ->
  Value_string (ReqCtx r) CommunityIDKey = Some cid -> cid <> "" ->
  HasBody r = true -> 0 < ContentLength r -> 0 <= now ->
  generateInviteCode rand_Read = Ok code -> d <= 213503 ->
  exists e,
    CreateInviteHandler (CreateInvite now rand_Read) baseURL now
      (Some (mkCreateInviteRequest d maxUses)) w r s
    = Some (writeJSONResponse w 201
              (JObj [("code", JStr code); ("url", JStr (baseURL ++ "/invite/" ++ code));
                     ("expiresAt", JTime e)]), s)
    /\ (d <= 0 -> e = now + 7 * 24 * RateLimit.Hour)
    /\ (1 <= d <= 106751 -> e = now + d * 24 * RateLimit.Hour)
    /\ (106752 <= d -> e < now).
Proof.
  intros Hu Hc Hce Hb Hl Hn Hg Hd.
  unfold CreateInviteHandler; rewrite Hu, Hc.
  replace (String.eqb cid "") with false by (symmetry; apply String.eqb_neq; exact Hce).
  rewrite Hb; replace (ContentLength r >? 0) with true by (symmetry; apply Z.gtb_lt; lia).
  cbn [andb ExpiresInDays ReqMaxUses].
  set (ed := if Z.leb d 0 then 7 else d).
  set (e := now + wrap64 (wrap64 (ed * 24) * RateLimit.Hour)).
  assert (Hed : wrap64 (ed * 24) = ed * 24).
  { apply wrap64_id; unfold ed, int_min, int_max; destruct (Z.leb_spec d 0); lia. }
  assert (He : (d <= 0 -> e = now + 7 * 24 * RateLimit.Hour)
               /\ (1 <= d <= 106751 -> e = now + d * 24 * RateLimit.Hour)
               /\ (106752 <= d -> e < now)).
  { unfold e; rewrite Hed; unfold ed.
    destruct (Z.leb_spec d 0).
    - rewrite wrap64_id by (unfold RateLimit.Hour, RateLimit.Minute, int_min, int_max; lia).
      repeat split; intros; lia.
    - repeat split; intros.
      + lia.
      + rewrite wrap64_id; [lia|].
        unfold RateLimit.Hour, RateLimit.Minute, int_min, int_max; lia.
      + rewrite wrap64_over; [|unfold RateLimit.Hour, RateLimit.Minute, int_max; lia].
        unfold RateLimit.Hour, RateLimit.Minute; lia. }
  exists e; split; [|exact He].
  unfold CreateInvite; cbn [opt_ExpiresAt opt_MaxUses].
  replace (IsZero e) with false.
  2:{ symmetry; unfold IsZero, zeroTime; apply Z.eqb_neq.
      unfold e; rewrite Hed.
      assert (int_min <= wrap64 (ed * 24 * RateLimit.Hour) <= int_max)
        by (unfold wrap64, int_min, int_max;
            pose proof (Z.mod_pos_bound (ed * 24 * RateLimit.Hour + 2 ^ 63) (2 ^ 64)); lia).
      unfold int_min, int_max in *; lia. }
  rewrite Hg; reflexivity.
Qed.

Lemma CreateInviteHandler_expiry_witness :
  let r := mkRequest (fun _ => []) "10.0.0.9:4000"
             [(CommunityIDKey, CtxString "c1"); (userContextKey, CtxString "u1")]
             "c1" true 20 in
  let rnd : result (nat -> ascii) := Ok (fun _ => "A"%char) in
  exists e,
    CreateInviteHandler (CreateInvite (1700000000 * 10 ^ 9) rnd) "https://x" (1700000000 * 10 ^ 9)
      (Some (mkCreateInviteRequest 200000 0)) [] r tt
    = Some (writeJSONResponse [] 201
              (JObj [("code", JStr "dddddddddddddddddddddddddddddddd");
                     ("url", JStr ("https://x" ++ "/invite/" ++ "dddddddddddddddddddddddddddddddd"));
                     ("expiresAt", JTime e)]), tt)
    /\ (200000 <= 0 -> e = 1700000000 * 10 ^ 9 + 7 * 24 * RateLimit.Hour)
    /\ (1 <= 200000 <= 106751 -> e = 1700000000 * 10 ^ 9 + 200000 * 24 * RateLimit.Hour)
    /\ (106752 <= 200000 -> e < 1700000000 * 10 ^ 9).
Proof.
  intros r rnd.
  apply (CreateInviteHandler_expiry (1700000000 * 10 ^ 9) rnd "https://x" 200000 0 [] r tt
           "u1" "c1" "dddddddddddddddddddddddddddddddd"); try reflexivity; try (cbn; lia); discriminate.
Defined.

End InviteHandlerExtras.

Module InviteCreateFacts.
Import Identity InviteCreate.

Lemma length_string_of_list_ascii l : String.length (string_of_list_ascii l) = List.length l.
Proof. induction l; cbn; congruence. Qed.

Lemma code_char_in_chars b : In (code_char b) (list_ascii_of_string chars).
Proof.
  unfold code_char; apply nth_In.
  assert (H : List.length (list_ascii_of_string chars) = 62%nat) by reflexivity.
  rewrite H; apply Nat.mod_upper_bound; discriminate.
Qed.

Lemma list_ascii_of_string_of_list l : list_ascii_of_string (string_of_list_ascii l) = l.
Proof. induction l; cbn; congruence. Qed.

End InviteCreateFacts.

Module InviteCreateExtras.
Import Identity InviteCreate InviteCreateFacts.
Local Open Scope string_scope.

(** Extra: [CreateInvite] either fails because [rand.Read] failed, with
    that error wrapped twice ("failed to generate invite code" around
    "failed to generate random bytes"), or returns an invite whose code has
    32 characters, all from the 62-character alphabet [chars], with no
    use yet, the requested maximum, community and creator, and the
    requested expiry, or 7 days after [now] when it is the zero time. *)
Theorem CreateInvite_result (now : Z) (rand_Read : result (nat -> ascii))
    (communityID creatorID : string) (opts : InviteOptions) :
  match rand_Read with
  | Err e => CreateInvite now rand_Read communityID creatorID opts
             = Err (Wrapped "failed to generate invite code"
                      (Wrapped "failed to generate random bytes" e))
  | Ok _ => exists inv, CreateInvite now rand_Read communityID creatorID opts = Ok inv
            /\ String.length (Code inv) = 32%nat
            /\ Forall (fun ch => In ch (list_ascii_of_string chars))
                      (list_ascii_of_string (Code inv))
            /\ UsedCount inv = 0 /\ MaxUses inv = opt_MaxUses opts
            /\ CommunityID inv = communityID /\ CreatorID inv = creatorID
            /\ ExpiresAt inv = (if IsZero (opt_ExpiresAt opts)
                                then now + 7 * 24 * RateLimit.Hour else opt_ExpiresAt opts)
  end.
Proof.
  unfold CreateInvite, generateInviteCode.
  destruct rand_Read as [rnd|e]; [|reflexivity].
  eexists; split; [reflexivity|]; cbn [Code UsedCount MaxUses CommunityID CreatorID ExpiresAt].
  split; [rewrite length_string_of_list_ascii, length_map, length_seq; reflexivity|].
  split; [|repeat split].
  rewrite list_ascii_of_string_of_list.
  apply Forall_forall; intros ch Hin.
  apply in_map_iff in Hin as (i & <- & _); apply code_char_in_chars.
Qed.

(** The number of byte values [b] with [chars[b % 62]] equal to the
    character at position [j] of [chars]. *)
Definition preimages (j : nat) : nat :=
  List.length (filter (fun b => Ascii.eqb (code_char (ascii_of_nat b))
                                          (nth j (list_ascii_of_string chars) "a"%char))
                      (seq 0 256)).

(** Extra: [generateInviteCode] maps each random byte to [chars[b % 62]],
    so its characters are not uniform: over the 256 byte values, each of
    the first 8 characters of [chars] ("a" to "h") comes from 5 bytes,
    each of the other 54 from 4. *)
Theorem code_char_modulo_bias (j : nat) :
  (j < 62)%nat -> preimages j = if Nat.ltb j 8 then 5%nat else 4%nat.
Proof.
  intros Hj.
  assert (H : forallb (fun j => Nat.eqb (preimages j) (if Nat.ltb j 8 then 5%nat else 4%nat))
                      (seq 0 62) = true) by (vm_compute; reflexivity).
  rewrite forallb_forall in H.
  apply Nat.eqb_eq, H, in_seq; lia.
Qed.

Lemma code_char_modulo_bias_witness :
  (0 < 62)%nat /\ (61 < 62)%nat
  /\ preimages 0 = 5%nat /\ preimages 61 = 4%nat.
Proof.
  split; [lia|split; [lia|split]].
  - exact (code_char_modulo_bias 0 ltac:(lia)).
  - exact (code_char_modulo_bias 61 ltac:(lia)).
Defined.

(** Extra: an invite created with the default expiry (the zero time) is
    accepted by [ValidateInvite], whatever its maximum number of uses, at
    every instant up to 7 days after its creation, and refused with
    [ErrInviteExpired] at every later instant. *)
Theorem CreateInvite_default_expiry (now : Z) (rand_Read : result (nat -> ascii))
    (communityID creatorID : string) (maxUses : Z) (inv : Invite)
    (FindByID : string -> result Community) (t : Z) :
  CreateInvite now rand_Read communityID creatorID (mkInviteOptions zeroTime maxUses) = Ok inv ->
  ValidateInvite (fun c => if String.eqb c (Code inv) then Ok inv else Err ErrInviteNotFound)
    FindByID t (Code inv)
  = if t >? now + 7 * 24 * RateLimit.Hour then Err ErrInviteExpired
    else FindByID communityID.
Proof.
  unfold CreateInvite, generateInviteCode.
  destruct rand_Read as [rnd|e]; [|discriminate].
  intros H; injection H as <-.
  unfold ValidateInvite; rewrite String.eqb_refl; cbn [ExpiresAt MaxUses UsedCount CommunityID].
  replace (IsZero zeroTime) with true by reflexivity.
  destruct (t >? _); [reflexivity|].
  destruct (maxUses >? 0) eqn:Em; [|reflexivity].
  apply Z.gtb_lt in Em.
  replace (0 >=? maxUses) with false by (symmetry; rewrite Z.geb_leb; apply Z.leb_gt; lia).
  reflexivity.
Qed.

Lemma CreateInvite_default_expiry_witness :
  exists inv,
    CreateInvite 0 (Ok (fun _ => "A"%char)) "c1" "u1" (mkInviteOptions zeroTime 3) = Ok inv
    /\ ValidateInvite (fun c => if String.eqb c (Code inv) then Ok inv else Err ErrInviteNotFound)
         (fun id => Ok (mkCommunity id "Community")) (8 * 24 * RateLimit.Hour) (Code inv)
       = Err ErrInviteExpired.
Proof.
  eexists; split; [reflexivity|].
  refine (eq_trans (CreateInvite_default_expiry 0 (Ok (fun _ => "A"%char)) "c1" "u1" 3 _
             (fun id => Ok (mkCommunity id "Community")) (8 * 24 * RateLimit.Hour) eq_refl) _).
  reflexivity.
Defined.

End InviteCreateExtras.

Module InviteRunFacts.
Import GoInt GoIntFacts Identity InMemory InviteCreate InviteRuns.
Local Open Scope string_scope.

Definition bumped (inv : Invite) (k : Z) : Invite :=
  mkInvite (Code inv) (MaxUses inv) (UsedCount inv + k) (ExpiresAt inv)
    (CommunityID inv) (CreatorID inv).

Lemma find_bump (l : list Invite) code inv :
  find (fun i => String.eqb (Code i) code) l = Some inv ->
  int_min <= UsedCount inv + 1 <= int_max ->
  find (fun i => String.eqb (Code i) code)
    (map (fun i => if String.eqb (Code i) code
                   then mkInvite (Code i) (MaxUses i) (wrap64 (UsedCount i + 1))
                                 (ExpiresAt i) (CommunityID i) (CreatorID i)
                   else i) l) = Some (bumped inv 1).
Proof.
  intros Hf Hb; induction l as [|i l IH]; cbn in *; [discriminate|].
  destruct (String.eqb (Code i) code) eqn:E.
  - injection Hf as <-; cbn; rewrite E, wrap64_id by exact Hb; reflexivity.
  - rewrite E; exact (IH Hf).
Qed.

Lemma use_n_bumps n : forall s code inv,
  invite_FindByCode s code = Ok inv ->
  0 <= UsedCount inv -> UsedCount inv + Z.of_nat n <= int_max ->
  exists s', use_n s code n = Ok s' /\ invite_FindByCode s' code = Ok (bumped inv (Z.of_nat n))
             /\ users s' = users s /\ revoked s' = revoked s.
Proof.
  induction n as [|n IH]; intros s code inv Hf H0 Hmax.
  - exists s; repeat split; auto.
    rewrite Hf; unfold bumped; destruct inv; cbn; f_equal; f_equal; lia.
  - cbn [use_n]; unfold UseInvite, invite_IncrementUsage.
    unfold invite_FindByCode in Hf.
    destruct (find _ (invites s)) as [i|] eqn:Ef; [|discriminate].
    injection Hf as ->.
    set (s1 := mkState (users s) _ (revoked s)).
    assert (Hf1 : invite_FindByCode s1 code = Ok (bumped inv 1)).
    { unfold invite_FindByCode, s1; cbn [invites].
      rewrite (find_bump _ _ _ Ef) by (unfold int_min, int_max in *; lia); reflexivity. }
    destruct (IH s1 code (bumped inv 1) Hf1) as (s' & Hs & Hf' & Hu & Hr);
      cbn [bumped UsedCount]; try lia.
    exists s'; split; [exact Hs|]; split; [|split; [exact Hu|exact Hr]].
    rewrite Hf'; unfold bumped; cbn; f_equal; f_equal; lia.
Qed.

End InviteRunFacts.

Module InviteRunExtras.
Import GoInt Identity InMemory InviteCreate InviteRuns InviteRunFacts.
Local Open Scope string_scope.

(** Extra: on the in-memory invite store, [n] successive [UseInvite] calls
    on a stored code all succeed and raise its use count by exactly [n]
    (no wrap-around while the count stays within int64), leaving users and
    revoked tokens alone. [ValidateInvite] then refuses the invite with
    [ErrInviteExhausted] exactly when it is unexpired, has a positive
    maximum and the new count reaches it. *)
Theorem use_n_then_validate (s : state) (code : string) (inv : Invite) (n : nat)
    (FindByID : string -> result Community) (now : Z) :
  invite_FindByCode s code = Ok inv ->
  0 <= UsedCount inv -> UsedCount inv + Z.of_nat n <= int_max ->
  exists s', use_n s code n = Ok s'
    /\ invite_FindByCode s' code = Ok (bumped inv (Z.of_nat n))
    /\ users s' = users s /\ revoked s' = revoked s
    /\ ValidateInvite (invite_FindByCode s') FindByID now code
       = if now >? ExpiresAt inv then Err ErrInviteExpired
         else if (MaxUses inv >? 0) && (UsedCount inv + Z.of_nat n >=? MaxUses inv)
         then Err ErrInviteExhausted
         else FindByID (CommunityID inv).
Proof.
  intros Hf H0 Hmax.
  destruct (use_n_bumps n s code inv Hf H0 Hmax) as (s' & Hs & Hf' & Hu & Hr).
  exists s'; repeat (split; [assumption|]).
  unfold ValidateInvite; rewrite Hf'; reflexivity.
Qed.

Lemma use_n_then_validate_witness :
  let inv := mkInvite "code1" 3 1 100 "c1" "u1" in
  let s := mkState [] [inv] [] in
  exists s', use_n s "code1" 2 = Ok s'
    /\ invite_FindByCode s' "code1" = Ok (bumped inv (Z.of_nat 2))
    /\ users s' = users s /\ revoked s' = revoked s
    /\ ValidateInvite (invite_FindByCode s') (fun id => Ok (mkCommunity id "Community")) 0 "code1"
       = Err ErrInviteExhausted.
Proof.
  intros inv s.
  refine (use_n_then_validate s "code1" inv 2 (fun id => Ok (mkCommunity id "Community")) 0
            eq_refl _ _); cbn; unfold int_max; lia.
Defined.

End InviteRunExtras.

Module ServiceFacts.
Import Identity.

(** Case analysis on the innermost [match] of the goal, then reduction. *)
Ltac split_matches :=
  repeat (match goal with
          | |- context [match ?x with _ => _ end] =>
              lazymatch x with
              | context [match _ with _ => _ end] => fail
              | _ => destruct x eqn:?
              end
          end; cbn).

Lemma Register_success_inv {St} (svc : Service St) (now : Z)
    (newID email password handle inviteCode : string) (s : St) (tr : list call)
    (u : User) (s' : St) (tr' : list call) :
  Register svc now newID email password handle inviteCode (s, tr) = (Ok u, (s', tr')) ->
  validateEmail email = None /\ validatePassword password = None
  /\ validateHandle handle = None
  /\ (exists invite, inviteRepo_FindByCode svc s inviteCode = Ok invite
                     /\ now <= ExpiresAt invite)
  /\ exists hashed s1 pre,
       hasher_Hash svc password = Ok hashed
       /\ u = mkUser newID email handle hashed 0
       /\ userRepo_Create svc s u = Ok s1
       /\ s' = match inviteRepo_IncrementUsage svc s1 inviteCode with
               | Ok s2 => s2 | Err _ => s1 end
       /\ tr' = (tr ++ pre ++ [CCreate u; CIncrementUsage inviteCode])%list.
Proof.
  unfold Register, isHandleAvailable, bind, read_call, write_call, ret, throw; cbn.
  split_matches.
  all: intros H; injection H; intros; subst; try discriminate.
  all: split; [reflexivity|]; split; [reflexivity|]; split; [reflexivity|].
  all: split; [eexists; split; [reflexivity|];
               match goal with H : (_ >? ExpiresAt _) = false |- _ =>
                 rewrite Z.gtb_ltb, Z.ltb_ge in H; exact H end|].
  all: do 2 eexists;
       exists [CFindByCode inviteCode; CFindByEmail email; CFindByHandle handle; CHash password].
  all: split; [first [reflexivity | eassumption]|].
  all: split; [reflexivity|].
  all: split; [first [reflexivity | eassumption]|].
  all: split; [first [reflexivity | match goal with H : inviteRepo_IncrementUsage _ _ _ = _ |- _ =>
                                      rewrite H; reflexivity end]|].
  all: rewrite <- !app_assoc; reflexivity.
Qed.

End ServiceFacts.

Module ServiceExtras.
Import Identity ServiceFacts.
Local Open Scope string_scope.
Local Open Scope go_scope.

(** Extra: whatever the stores behind it, a [Register] that fails leaves
    the store state as it found it: no user is created and the invite's
    use count is not touched (the only writes come after the last check
    that can fail, and a failed write changes nothing). *)
Theorem Register_failure_keeps_state {St} (svc : Service St) (now : Z)
    (newID email password handle inviteCode : string) (s : St) (tr : list call)
    (e : error) (s' : St) (tr' : list call) :
  Register svc now newID email password handle inviteCode (s, tr) = (Err e, (s', tr')) ->
  s' = s.
Proof.
  unfold Register, isHandleAvailable, bind, read_call, write_call, ret, throw; cbn.
  split_matches.
  all: intros H; injection H; intros; subst; auto; discriminate.
Qed.

Lemma Register_failure_keeps_state_witness :
  Register InMemory.service 0 "id1" "a@b.co" "password1" "alice" "nocode"
    (InMemory.mkState [] [] [], [])
  = (Err ErrInvalidInviteCode, (InMemory.mkState [] [] [], [CFindByCode "nocode"]))
  /\ InMemory.mkState [] [] [] = InMemory.mkState [] [] [].
Proof.
  split; [reflexivity|].
  exact (Register_failure_keeps_state InMemory.service 0 "id1" "a@b.co" "password1" "alice"
           "nocode" (InMemory.mkState [] [] []) [] ErrInvalidInviteCode _ _ eq_refl).
Defined.

(** Extra: a [Register] that succeeds returns the user built from the new
    ID, the email, the handle and the hasher's output for the password,
    with reputation 0, after all three validators accepted their input and
    the invite was found unexpired. The user was created in the state the
    call started from, and the final state is the one after the invite's
    usage increment, or the one right after the creation when that
    increment failed; the trace ends with the creation and the increment. *)
Theorem Register_success_shape {St} (svc : Service St) (now : Z)
    (newID email password handle inviteCode : string) (s : St) (tr : list call)
    (u : User) (s' : St) (tr' : list call) :
  Register svc now newID email password handle inviteCode (s, tr) = (Ok u, (s', tr')) ->
  validateEmail email = None /\ validatePassword password = None
  /\ validateHandle handle = None
  /\ (exists invite, inviteRepo_FindByCode svc s inviteCode = Ok invite
                     /\ now <= ExpiresAt invite)
  /\ exists hashed s1 pre,
       hasher_Hash svc password = Ok hashed
       /\ u = mkUser newID email handle hashed 0
       /\ userRepo_Create svc s u = Ok s1
       /\ s' = match inviteRepo_IncrementUsage svc s1 inviteCode with
               | Ok s2 => s2 | Err _ => s1 end
       /\ tr' = (tr ++ pre ++ [CCreate u; CIncrementUsage inviteCode])%list.
Proof.
  exact (Register_success_inv svc now newID email password handle inviteCode s tr u s' tr').
Qed.

Lemma Register_success_shape_witness :
  let s := InMemory.mkState [] [mkInvite "inv1" 0 0 100 "c1" "u0"] [] in
  exists u s' tr',
    Register InMemory.service 0 "id1" "a@b.co" "password1" "alice" "inv1" (s, []) = (Ok u, (s', tr'))
    /\ validateEmail "a@b.co" = None /\ validatePassword "password1" = None
    /\ validateHandle "alice" = None
    /\ (exists invite, inviteRepo_FindByCode InMemory.service s "inv1" = Ok invite
                       /\ 0 <= ExpiresAt invite)
    /\ exists hashed s1 pre,
         hasher_Hash InMemory.service "password1" = Ok hashed
         /\ u = mkUser "id1" "a@b.co" "alice" hashed 0
         /\ userRepo_Create InMemory.service s u = Ok s1
         /\ s' = match inviteRepo_IncrementUsage InMemory.service s1 "inv1" with
                 | Ok s2 => s2 | Err _ => s1 end
         /\ tr' = ([] ++ pre ++ [CCreate u; CIncrementUsage "inv1"])%list.
Proof.
  intros s.
  do 3 eexists; split;
    [match goal with |- ?l = _ => let v := eval vm_compute in l in change l with v end;
     reflexivity|].
  exact (Register_success_shape InMemory.service 0 "id1" "a@b.co" "password1" "alice" "inv1"
           s [] _ _ _ eq_refl).
Defined.

End ServiceExtras.

Module AuthHandlerExtras.
Import GoStd Identity InviteHandlerM AuthHandlerM ServiceFacts.
Local Open Scope string_scope.
Local Open Scope go_scope.

Lemma LoginHandler_keeps_state {St} (svc : Service St) (w : RespHeader) (req : LoginRequest)
    (s : St) (tr : list call) :
  fst (snd (LoginHandler svc w (Some req) (s, tr))) = s.
Proof.
  unfold LoginHandler, Login, try_, bind, read_call, ret, throw; cbn.
  split_matches; reflexivity.
Qed.

(** Extra: [LoginHandler] gives the very same answer, 401 "Invalid
    credentials", to an email no user has and to a known email with a
    wrong password, so the answer does not reveal which emails are
    registered; and a login, whatever its outcome, leaves the store state
    as it was. *)
Theorem LoginHandler_same_401 {St} (svc : Service St) (w : RespHeader) (req : LoginRequest)
    (s : St) (tr : list call) :
  ((exists e, userRepo_FindByEmail svc s (LR_Email req) = Err e)
   \/ (exists user e, userRepo_FindByEmail svc s (LR_Email req) = Ok user
                      /\ hasher_Compare svc (PasswordHash user) (LR_Password req) = Err e)) ->
  fst (LoginHandler svc w (Some req) (s, tr)) = Ok (writeErrorResponse w 401 "Invalid credentials")
  /\ fst (snd (LoginHandler svc w (Some req) (s, tr))) = s.
Proof.
  intros H; split; [|apply LoginHandler_keeps_state].
  destruct H as [[e He] | (user & e & Hu & Hc)];
    unfold LoginHandler, Login, try_, bind, read_call, ret, throw; cbn.
  - rewrite He; reflexivity.
  - rewrite Hu; cbn; rewrite Hc; reflexivity.
Qed.

Lemma LoginHandler_same_401_witness :
  let s := InMemory.mkState [mkUser "id1" "a@b.co" "alice" "hashed_password1" 0] [] [] in
  (userRepo_FindByEmail InMemory.service s "a@b.co" = Ok (mkUser "id1" "a@b.co" "alice" "hashed_password1" 0)
   /\ hasher_Compare InMemory.service "hashed_password1" "wrong" = Err ErrInvalidCredentials)
  /\ fst (LoginHandler InMemory.service [] (Some (mkLoginRequest "a@b.co" "wrong")) (s, []))
     = Ok (writeErrorResponse [] 401 "Invalid credentials")
  /\ fst (snd (LoginHandler InMemory.service [] (Some (mkLoginRequest "a@b.co" "wrong")) (s, []))) = s.
Proof.
  intros s.
  assert (Hu : userRepo_FindByEmail InMemory.service s "a@b.co"
               = Ok (mkUser "id1" "a@b.co" "alice" "hashed_password1" 0)) by reflexivity.
  assert (Hc : hasher_Compare InMemory.service "hashed_password1" "wrong" = Err ErrInvalidCredentials)
    by reflexivity.
  split; [split; assumption|].
  apply (LoginHandler_same_401 InMemory.service [] (mkLoginRequest "a@b.co" "wrong") s []).
  right; exists (mkUser "id1" "a@b.co" "alice" "hashed_password1" 0), ErrInvalidCredentials.
  split; assumption.
Defined.

(** Extra: [RefreshHandler] never answers 500, not even when the
    revocation store fails: on a decoded body it answers 200 exactly when
    [RefreshTokens] succeeds and 401 whenever it fails, and it ends in the
    state [RefreshTokens] left. *)
Theorem RefreshHandler_200_or_401 {St} (svc : Service St) (w : RespHeader)
    (req : RefreshRequest) (s : St) (tr : list call) :
  exists resp,
    RefreshHandler svc w (Some req) (s, tr) = (Ok resp, snd (RefreshTokens svc (RF_RefreshToken req) (s, tr)))
    /\ ((StatusCode resp = 200 /\ exists a, fst (RefreshTokens svc (RF_RefreshToken req) (s, tr)) = Ok a)
        \/ (StatusCode resp = 401 /\ exists e, fst (RefreshTokens svc (RF_RefreshToken req) (s, tr)) = Err e)).
Proof.
  unfold RefreshHandler, try_, bind, ret.
  destruct (RefreshTokens svc (RF_RefreshToken req) (s, tr)) as [[a|e] w'] eqn:E; cbn.
  - eexists; split; [reflexivity|]. left; split; [reflexivity|]. eexists; reflexivity.
  - destruct (errors_Is e ErrTokenRevoked); [|destruct (errors_Is e ErrTokenExpired)];
      (eexists; split; [reflexivity|]; right; split; [reflexivity|]; eexists; reflexivity).
Qed.

Lemma Register_retry_fails (now : Z) (newID email password handle code : string)
    (s : InMemory.state) (tr : list call) (u : User) :
  validateEmail email = None -> validatePassword password = None -> validateHandle handle = None ->
  find (fun x => String.eqb (Email x) email) (InMemory.users s) = Some u ->
  exists e2 w2, Register InMemory.service now newID email password handle code (s, tr) = (Err e2, w2)
    /\ (e2 = ErrEmailAlreadyRegistered \/ e2 = ErrInvalidInviteCode
        \/ e2 = ErrInviteExpired \/ e2 = ErrInviteExhausted).
Proof.
  intros He Hp Hh Hf.
  unfold Register, isHandleAvailable, bind, read_call, write_call, ret, throw; cbn.
  unfold InMemory.invite_FindByCode, InMemory.user_FindByEmail.
  destruct (find (fun i => String.eqb (Code i) code) (InMemory.invites s)); cbn;
    [|do 2 eexists; split; [reflexivity|]; tauto].
  destruct (now >? ExpiresAt _); cbn; [do 2 eexists; split; [reflexivity|]; tauto|].
  destruct ((_ >? 0) && _); cbn; [do 2 eexists; split; [reflexivity|]; tauto|].
  rewrite He, Hp, Hh, Hf; cbn.
  do 2 eexists; split; [reflexivity|]; tauto.
Qed.

(** Extra: when registration succeeds but the access token cannot be
    generated, [RegisterHandler] answers 500 "Failed to generate access
    token" while the account stays created (the handler ends in the state
    [Register] left). On the in-memory stores, a retry of the same request
    is then never 201: it gets 409 "Email already registered", or 400 when
    the invite no longer validates. *)
Theorem RegisterHandler_500_after_create (ts : TokenService) (w : RespHeader) (now now2 : Z)
    (newID newID2 : string) (req : RegisterRequest) (s : InMemory.state) (tr : list call)
    (u : User) (s1 : InMemory.state) (tr1 : list call) (e : error) :
  Register InMemory.service now newID (RR_Email req) (RR_Password req) (RR_Handle req)
    (RR_InviteCode req) (s, tr) = (Ok u, (s1, tr1)) ->
  ts_GenerateAccessToken ts (ID u) = Err e ->
  RegisterHandler InMemory.service ts w now newID (Some req) (s, tr)
    = (Ok (writeErrorResponse w 500 "Failed to generate access token"), (s1, tr1))
  /\ userRepo_FindByEmail InMemory.service s1 (RR_Email req) = Ok u
  /\ exists resp w2,
       RegisterHandler InMemory.service ts w now2 newID2 (Some req) (s1, tr1) = (Ok resp, w2)
       /\ (resp = writeErrorResponse w 409 "Email already registered"
           \/ StatusCode resp = 400).
Proof.
  intros HR Ht.
  destruct (Register_success_inv _ _ _ _ _ _ _ _ _ _ _ _ HR)
    as (He & Hp & Hh & _ & hashed & s1' & pre & Hhash & Hu & Hc & Hs1 & _).
  assert (Hfind : userRepo_FindByEmail InMemory.service s1 (RR_Email req) = Ok u).
  { cbn in Hc; injection Hc as <-.
    assert (Husers : InMemory.users s1 = u :: filter (fun x => negb (String.eqb (ID x) (ID u)))
                                                   (InMemory.users s)).
    { rewrite Hs1; cbn; unfold InMemory.invite_IncrementUsage.
      destruct (find _ _); reflexivity. }
    cbn; unfold InMemory.user_FindByEmail; rewrite Husers; cbn.
    rewrite Hu; cbn; rewrite String.eqb_refl; reflexivity. }
  split; [|split; [exact Hfind|]].
  - unfold RegisterHandler, try_, bind, ret. rewrite HR; cbn. rewrite Ht; reflexivity.
  - assert (Hf : find (fun x => String.eqb (Email x) (RR_Email req)) (InMemory.users s1) = Some u).
    { cbn in Hfind; unfold InMemory.user_FindByEmail in Hfind.
      destruct (find _ _) as [x|] eqn:E; [|discriminate].
      injection Hfind as ->; reflexivity. }
    destruct (Register_retry_fails now2 newID2 (RR_Email req) (RR_Password req) (RR_Handle req)
                (RR_InviteCode req) s1 tr1 u He Hp Hh Hf) as (e2 & w2 & HR2 & He2).
    unfold RegisterHandler, try_, bind, ret. rewrite HR2; cbn.
    eexists; eexists; split; [reflexivity|].
    destruct He2 as [-> | [-> | [-> | ->]]]; [left; reflexivity | right; reflexivity ..].
Qed.

Lemma RegisterHandler_500_after_create_witness :
  let s := InMemory.mkState [] [mkInvite "inv1" 0 0 100 "c1" "u0"] [] in
  let req := mkRegisterRequest "a@b.co" "password1" "alice" "inv1" in
  let ts := mkTokenService (fun _ => Err (ErrExternal "signing key missing")) (fun _ => Ok "r") in
  exists u s1 tr1,
    Register InMemory.service 0 "id1" (RR_Email req) (RR_Password req) (RR_Handle req)
      (RR_InviteCode req) (s, []) = (Ok u, (s1, tr1))
    /\ ts_GenerateAccessToken ts (ID u) = Err (ErrExternal "signing key missing")
    /\ RegisterHandler InMemory.service ts [] 0 "id1" (Some req) (s, [])
       = (Ok (writeErrorResponse [] 500 "Failed to generate access token"), (s1, tr1))
    /\ userRepo_FindByEmail InMemory.service s1 (RR_Email req) = Ok u
    /\ exists resp w2,
         RegisterHandler InMemory.service ts [] 1 "id2" (Some req) (s1, tr1) = (Ok resp, w2)
         /\ (resp = writeErrorResponse [] 409 "Email already registered"
             \/ StatusCode resp = 400).
Proof.
  intros s req ts.
  do 3 eexists; split;
    [match goal with |- ?l = _ => let v := eval vm_compute in l in change l with v end;
     reflexivity|].
  split; [reflexivity|].
  exact (RegisterHandler_500_after_create ts [] 0 1 "id1" "id2" req s [] _ _ _
           (ErrExternal "signing key missing") eq_refl eq_refl).
Defined.

(** Extra: [RegisterHandler] answers 500 "Registration failed" only for
    two failures of [Register]: the hasher's (wrapped in "failed to hash
    password") and the user store's on creation (wrapped in "failed to
    create user"), and then only when the wrapped error is none of the
    sentinels the switch knows. Every other error of [Register] is one of
    the sentinels and gets 400 or 409. *)
Theorem Register_500_origins {St} (svc : Service St) (w : RespHeader) (now : Z)
    (newID email password handle inviteCode : string) (s : St) (tr : list call)
    (e : error) (w' : St * list call) :
  Register svc now newID email password handle inviteCode (s, tr) = (Err e, w') ->
  StatusCode (handleRegistrationError w e) = 500 ->
  exists inner,
    (e = Wrapped "failed to hash password" inner /\ hasher_Hash svc password = Err inner)
    \/ (e = Wrapped "failed to create user" inner
        /\ userRepo_Create svc s (mkUser newID email handle
                                   match hasher_Hash svc password with
                                   | Ok h => h | Err _ => "" end 0) = Err inner).
Proof.
  unfold Register, isHandleAvailable, bind, read_call, write_call, ret, throw,
    validateEmail, validatePassword, validateHandle; cbn.
  split_matches.
  all: intros H Hs; injection H; intros; subst.
  all: first [ eexists; left; split; [reflexivity|first [assumption|reflexivity]]
             | eexists; right; split; reflexivity
             | vm_compute in Hs; discriminate ].
Qed.

Lemma Register_500_origins_witness :
  let svc := mkService InMemory.invite_FindByCode InMemory.invite_IncrementUsage
               (fun _ _ => Err (ErrExternal "disk full"))
               InMemory.user_FindByEmail InMemory.user_FindByHandle InMemory.hasher_Hash_impl
               InMemory.hasher_Compare_impl InMemory.gen_access InMemory.gen_refresh
               InMemory.validate_refresh InMemory.token_IsRevoked InMemory.token_Revoke in
  let s := InMemory.mkState [] [mkInvite "inv1" 0 0 100 "c1" "u0"] [] in
  exists w',
    Register svc 0 "id1" "a@b.co" "password1" "alice" "inv1" (s, [])
      = (Err (Wrapped "failed to create user" (ErrExternal "disk full")), w')
    /\ StatusCode (handleRegistrationError [] (Wrapped "failed to create user" (ErrExternal "disk full"))) = 500
    /\ exists inner,
      (Wrapped "failed to create user" (ErrExternal "disk full") = Wrapped "failed to hash password" inner
       /\ hasher_Hash svc "password1" = Err inner)
      \/ (Wrapped "failed to create user" (ErrExternal "disk full") = Wrapped "failed to create user" inner
          /\ userRepo_Create svc s (mkUser "id1" "a@b.co" "alice"
                                     match hasher_Hash svc "password1" with
                                     | Ok h => h | Err _ => "" end 0) = Err inner).
Proof.
  intros svc s.
  eexists; split;
    [match goal with |- ?l = _ => let v := eval vm_compute in l in change l with v end;
     reflexivity|].
  split; [reflexivity|].
  refine (Register_500_origins svc [] 0 "id1" "a@b.co" "password1" "alice" "inv1" s [] _ _ _ _).
  - match goal with |- ?l = _ => let v := eval vm_compute in l in change l with v end;
    reflexivity.
  - reflexivity.
Defined.

(** Extra: on the logout route, any caller with a valid access token who
    names a non-empty refresh token in the body gets it revoked, whoever the
    token belongs to: on the in-memory stores the route answers 200 and
    the token is marked revoked. From then on [RefreshTokens] with that
    token never issues tokens, whatever token validator the service is
    wired with: it fails with the validator's error when the validator
    rejects the token (an expired one, say), and with [ErrTokenRevoked]
    when it accepts it. *)
Theorem logoutRoute_revokes_any_token (jwt_Parse : string -> JWT.parse_result)
    (w : RespHeader) (r : Request) (s : InMemory.state) (c : JWT.Claims) (t : string) :
  HasPrefix (Header_Get (ReqHeader r) "Authorization") "Bearer " = true ->
  JWT.ValidateToken jwt_Parse (TrimPrefix (Header_Get (ReqHeader r) "Authorization") "Bearer ")
    = JWT.VOk c ->
  HasBody r = true -> 0 < ContentLength r -> t <> "" ->
  exists s', logoutRoute jwt_Parse (Some InMemory.token_Revoke) (Some (mkLogoutRequest t)) w r s
             = Some (WriteHeaderOnly w 200, s')
    /\ InMemory.token_IsRevoked s' t = Ok true
    /\ forall gen_access gen_refresh validate_refresh tr,
         fst (RefreshTokens (InMemory.service_with gen_access gen_refresh validate_refresh)
                t (s', tr))
         = Err (match validate_refresh t with
                | Ok _ => ErrTokenRevoked
                | Err e => e
                end).
Proof.
  intros Hp Hv Hb Hl Ht.
  assert (Hne : String.eqb t "" = false) by (apply String.eqb_neq; exact Ht).
  assert (Hh : String.eqb (Header_Get (ReqHeader r) "Authorization") "" = false).
  { apply String.eqb_neq; intros E; rewrite E in Hp; discriminate. }
  unfold logoutRoute, Router.withAuth; rewrite Hh, Hp, Hv; cbn [orb negb].
  unfold LogoutHandler; cbn [ReqHeader HasBody ContentLength WithContext LO_RefreshToken].
  rewrite Hh, Hp, Hb; cbn [orb negb andb].
  replace (ContentLength r >? 0) with true by (symmetry; apply Z.gtb_lt; lia).
  cbn [LO_RefreshToken]; rewrite Hne; cbn [negb].
  eexists; split; [reflexivity|].
  split.
  - unfold InMemory.token_IsRevoked, InMemory.token_Revoke; cbn.
    rewrite String.eqb_refl; reflexivity.
  - intros ga gr vr tr.
    unfold RefreshTokens, bind, read_call, write_call, ret, throw; cbn.
    destruct (vr t); cbn; [rewrite String.eqb_refl|]; reflexivity.
Qed.

Lemma logoutRoute_revokes_any_token_witness :
  let r := mkRequest (fun k => if String.eqb k "Authorization" then ["Bearer tok"] else [])
             "10.0.0.9:4000" [] "" true 30 in
  let jwt_Parse := fun _ : string => JWT.Parsed true (Some [("user_id", JWT.JString "alice");
                                                             ("exp", JWT.JNumber 2000000000);
                                                             ("iat", JWT.JNumber 1700000000)]) in
  exists s', logoutRoute jwt_Parse (Some InMemory.token_Revoke)
               (Some (mkLogoutRequest "refresh.bob")) [] r (InMemory.mkState [] [] [])
             = Some (WriteHeaderOnly [] 200, s')
    /\ InMemory.token_IsRevoked s' "refresh.bob" = Ok true
    /\ forall gen_access gen_refresh validate_refresh tr,
         fst (RefreshTokens (InMemory.service_with gen_access gen_refresh validate_refresh)
                "refresh.bob" (s', tr))
         = Err (match validate_refresh "refresh.bob" with
                | Ok _ => ErrTokenRevoked
                | Err e => e
                end).
Proof.
  intros r jwt_Parse.
  apply (logoutRoute_revokes_any_token jwt_Parse [] r (InMemory.mkState [] [] [])
           (JWT.mkClaims "alice" 2000000000 1700000000 "") "refresh.bob");
    try reflexivity; cbn; first [lia | discriminate].
Defined.

End AuthHandlerExtras.

Module ApiResponseExtras.
Import GoStd CtxKeys ApiResponse GoStdFacts AuthFacts.
Local Open Scope string_scope.

(** Extra: behind [RequestIDMiddleware], an error written with
    [WriteError] carries the request ID twice, in the X-Request-Id
    response header and in the body's "requestId" field, next to the
    message and with the JSON content type. The ID is the request's
    X-Request-Id header when it is not empty, and otherwise the freshly
    generated UUID (assumed non-empty). *)
Theorem RequestID_in_error_response {St} (newUUID : string) (code : Z) (msg : string)
    (w : RespHeader) (r : Request) (s : St) :
  newUUID <> "" ->
  let id := if String.eqb (Header_Get (ReqHeader r) "X-Request-Id") "" then newUUID
            else Header_Get (ReqHeader r) "X-Request-Id" in
  exists resp,
    RequestIDMiddleware newUUID (fun w0 r0 s0 => Some (WriteError w0 r0 code msg, s0)) w r s
      = Some (resp, s)
    /\ StatusCode resp = code
    /\ hget (Headers resp) "X-Request-Id" = Some id
    /\ hget (Headers resp) "Content-Type" = Some "application/json"
    /\ RespBody resp = BodyJSON (JObj [("error", JStr msg); ("requestId", JStr id)]).
Proof.
  intros Hu id.
  assert (Hid : String.eqb id "" = false).
  { apply String.eqb_neq; unfold id.
    destruct (String.eqb (Header_Get (ReqHeader r) "X-Request-Id") "") eqn:E; [exact Hu|].
    apply String.eqb_neq; exact E. }
  unfold RequestIDMiddleware, WriteError, GetRequestID; fold id.
  cbn [ReqCtx WithContext]. rewrite Value_string_WithValue_same, Hid; cbn [negb].
  eexists; split; [reflexivity|]; cbn [StatusCode Headers RespBody].
  split; [reflexivity|]. split; [apply hget_hset_same|].
  split; [rewrite hget_hset_other by discriminate; apply hget_hset_same|reflexivity].
Qed.

Lemma RequestID_in_error_response_witness :
  "uuid-1" <> ""
  /\ exists resp,
    RequestIDMiddleware "uuid-1" (fun w0 r0 s0 => Some (WriteError w0 r0 404 "Not found", s0)) []
      (mkRequest (fun _ => []) "10.0.0.9:4000" [] "" false 0) tt = Some (resp, tt)
    /\ StatusCode resp = 404
    /\ hget (Headers resp) "X-Request-Id" = Some "uuid-1"
    /\ hget (Headers resp) "Content-Type" = Some "application/json"
    /\ RespBody resp = BodyJSON (JObj [("error", JStr "Not found"); ("requestId", JStr "uuid-1")]).
Proof.
  split; [discriminate|].
  exact (RequestID_in_error_response "uuid-1" 404 "Not found" []
           (mkRequest (fun _ => []) "10.0.0.9:4000" [] "" false 0) tt ltac:(discriminate)).
Defined.

End ApiResponseExtras.
